(** * Parallel-corpus preprocessing: extraction, vocabularies, tokenization

    A shallow embedding of [spring/task3/preprocessing.py] and the
    properties of its three functions [extract_sentences],
    [get_token_to_index] and [tokenize_sents].

    Conventions of the embedding.
    - A Python [str] is a [string]; its characters are the code points
      below 256.
    - A Python [int] is a [Z].
    - A Python [dict] is an association list in insertion order whose
      keys are pairwise distinct; [dict_set] updates in place or appends.
    - A Python [list] is a [list]; [l.append(x)] is [l ++ [x]].
    - A call that may raise returns a [result]; the first exception
      aborts the computation. *)

From Stdlib Require Import List String Ascii ZArith Lia Bool Arith.
From Stdlib Require Import Sorted Permutation.
From Stdlib Require DecimalString DecimalNat.
Import ListNotations.

Local Set Warnings "-register-all".

Local Open Scope string_scope.
Local Open Scope list_scope.
Local Open Scope Z_scope.

(** ** Exceptions *)

Inductive PyError : Type :=
| FileNotFoundError
| ParseError
| IndexError
| AttributeError
| ValueError.

Inductive result (A : Type) : Type :=
| Ok (a : A)
| Raise (e : PyError).

Arguments Ok {A} a.
Arguments Raise {A} e.

Definition bind {A B : Type} (r : result A) (k : A -> result B) : result B :=
  match r with
  | Ok a => k a
  | Raise e => Raise e
  end.

Notation "x <- r ;; k" := (bind r (fun x => k))
  (at level 61, r at next level, right associativity).

(** A list comprehension whose element expression may raise. *)
Fixpoint comprehension {A B : Type} (f : A -> result B) (l : list A)
  : result (list B) :=
  match l with
  | [] => Ok []
  | x :: l' => y <- f x ;; ys <- comprehension f l' ;; Ok (y :: ys)
  end.

(** A [for] loop whose body may raise, threading the loop state. *)
Fixpoint for_each {S A : Type} (body : S -> A -> result S) (l : list A)
  (s : S) : result S :=
  match l with
  | [] => Ok s
  | x :: l' => s' <- body s x ;; for_each body l' s'
  end.

(** [l[i]] on a Python list. *)
Definition list_getitem {A : Type} (l : list A) (i : nat) : result A :=
  match nth_error l i with
  | Some x => Ok x
  | None => Raise IndexError
  end.

(** ** Python strings *)

(** [str.isspace] on the code points below 256. *)
Definition isspace (c : ascii) : bool :=
  let n := nat_of_ascii c in
  ((9 <=? n) && (n <=? 13) || (28 <=? n) && (n <=? 32)
   || (n =? 133) || (n =? 160))%nat.

Definition snoc_char (s : string) (c : ascii) : string :=
  String.append s (String c EmptyString).

Definition is_empty (s : string) : bool :=
  match s with
  | EmptyString => true
  | String _ _ => false
  end.

(** [s.split()]: the maximal runs of non-whitespace characters. [cur] is
    the run being read. *)
Fixpoint split_ws_from (cur s : string) : list string :=
  match s with
  | EmptyString => if is_empty cur then [] else [cur]
  | String c rest =>
      if isspace c
      then (if is_empty cur then split_ws_from EmptyString rest
            else cur :: split_ws_from EmptyString rest)
      else split_ws_from (snoc_char cur c) rest
  end.

Definition split_ws (s : string) : list string :=
  split_ws_from EmptyString s.

(** [s.split(sep)] for a one-character separator: never empty, pieces may
    be. *)
Fixpoint split_on_from (sep : ascii) (cur s : string) : list string :=
  match s with
  | EmptyString => [cur]
  | String c rest =>
      if Ascii.eqb c sep
      then cur :: split_on_from sep EmptyString rest
      else split_on_from sep (snoc_char cur c) rest
  end.

Definition split_on (sep : ascii) (s : string) : list string :=
  split_on_from sep EmptyString s.

(** [s.replace(old, new)] for a one-character [old]. *)
Fixpoint replace_char (old : ascii) (new : string) (s : string) : string :=
  match s with
  | EmptyString => EmptyString
  | String c rest =>
      if Ascii.eqb c old
      then String.append new (replace_char old new rest)
      else String c (replace_char old new rest)
  end.

(** [int(s)] in base 10: surrounding whitespace is dropped, one sign is
    allowed, then decimal digits, single underscores only between
    digits; a literal of more than 4300 digits is refused (the default
    limit of the interpreter). The whitespace [int] drops is narrower
    than that of [split]: the separators 28 to 31 are not part of it. *)
Definition int_space (c : ascii) : bool :=
  let n := nat_of_ascii c in
  ((9 <=? n) && (n <=? 13) || (n =? 32) || (n =? 133) || (n =? 160))%nat.

Definition int_max_str_digits : Z := 4300.

Definition is_digit (c : ascii) : bool :=
  let n := nat_of_ascii c in ((48 <=? n) && (n <=? 57))%nat.

Definition digit_value (c : ascii) : Z :=
  Z.of_nat (nat_of_ascii c - 48).

Fixpoint lstrip (l : list ascii) : list ascii :=
  match l with
  | [] => []
  | c :: l' => if int_space c then lstrip l' else l
  end.

Definition strip (l : list ascii) : list ascii :=
  rev (lstrip (rev (lstrip l))).

Fixpoint parse_digits (acc : Z) (after_digit : bool) (l : list ascii)
  : option Z :=
  match l with
  | [] => if after_digit then Some acc else None
  | c :: l' =>
      if is_digit c then parse_digits (10 * acc + digit_value c) true l'
      else if Ascii.eqb c "_"%char
           then (if after_digit then parse_digits acc false l' else None)
           else None
  end.

Definition parse_signed (l : list ascii) : option Z :=
  match l with
  | c :: l' =>
      if Ascii.eqb c "-"%char then option_map Z.opp (parse_digits 0 false l')
      else if Ascii.eqb c "+"%char then parse_digits 0 false l'
      else parse_digits 0 false l
  | [] => None
  end.

Definition digit_count (l : list ascii) : Z :=
  Z.of_nat (List.length (filter is_digit l)).

Definition py_int (s : string) : result Z :=
  let l := strip (list_ascii_of_string s) in
  match parse_signed l with
  | Some n =>
      if digit_count l <=? int_max_str_digits then Ok n
      else Raise ValueError
  | None => Raise ValueError
  end.

(** ** Python dictionaries *)

Definition PyDict (V : Type) : Type := list (string * V).

Fixpoint dict_get {V : Type} (d : PyDict V) (k : string) : option V :=
  match d with
  | [] => None
  | (k', v) :: d' => if String.eqb k' k then Some v else dict_get d' k
  end.

(** [d[k] = v] *)
Fixpoint dict_set {V : Type} (d : PyDict V) (k : string) (v : V)
  : PyDict V :=
  match d with
  | [] => [(k, v)]
  | (k', v') :: d' =>
      if String.eqb k' k then (k', v) :: d'
      else (k', v') :: dict_set d' k v
  end.

Definition dict_keys {V : Type} (d : PyDict V) : list string := map fst d.

Definition dict_items {V : Type} (d : PyDict V) : list (string * V) := d.

(** [dict(items)] *)
Definition dict_of_items {V : Type} (items : list (string * V)) : PyDict V :=
  fold_left (fun d item => dict_set d (fst item) (snd item)) items [].

(** ** Built-ins on lists *)

(** [sorted(l, key=key, reverse=True)]: a stable sort by descending key.
    [insert_desc] puts [x], which stood before every element of [l], in
    front of the first element whose key is not larger. *)
Fixpoint insert_desc {A : Type} (key : A -> Z) (x : A) (l : list A) : list A :=
  match l with
  | [] => [x]
  | y :: l' =>
      if key y <=? key x then x :: y :: l'
      else y :: insert_desc key x l'
  end.

Definition sorted_reverse {A : Type} (key : A -> Z) (l : list A) : list A :=
  fold_right (insert_desc key) [] l.

(** What a stable descending sort achieves: [a] ends up before [b] when
    its key is larger, or the keys are equal and [a] stood first ([pos] is
    the place in the input). *)
Definition sorted_before {A : Type} (key : A -> Z) (pos : A -> nat)
  (a b : A) : Prop :=
  key b < key a \/ (key a = key b /\ (pos a < pos b)%nat).

(** [enumerate(l)], counting from [start]. *)
Fixpoint enumerate_from {A : Type} (start : Z) (l : list A) : list (Z * A) :=
  match l with
  | [] => []
  | x :: l' => (start, x) :: enumerate_from (start + 1) l'
  end.

Definition enumerate {A : Type} (l : list A) : list (Z * A) :=
  enumerate_from 0 l.

(** [l[:k]]: a negative [k] counts from the end. *)
Definition slice_to {A : Type} (l : list A) (k : Z) : list A :=
  if 0 <=? k then firstn (Z.to_nat k) l
  else firstn (List.length l - Z.to_nat (- k)) l.

(** ** The records of the module *)

Record SentencePair : Type := mkSentencePair {
  source : list string;
  target : list string
}.

Record TokenizedSentencePair : Type := mkTokenizedSentencePair {
  source_tokens : list Z;
  target_tokens : list Z
}.

Record LabeledAlignment : Type := mkLabeledAlignment {
  sure : list (Z * Z);
  possible : list (Z * Z)
}.

(** ** The element tree handed back by the XML parser *)

Inductive Element : Type :=
| mkElement (elem_text : option string) (elem_children : list Element).

Definition text (e : Element) : option string :=
  match e with mkElement t _ => t end.

Definition children (e : Element) : list Element :=
  match e with mkElement _ c => c end.

(** [e[i]] *)
Definition element_getitem (e : Element) (i : nat) : result Element :=
  list_getitem (children e) i.

(** [e.text.split()] *)
Definition text_split (e : Element) : result (list string) :=
  match text e with
  | Some s => Ok (split_ws s)
  | None => Raise AttributeError
  end.

(** ** Files *)

Definition FileSystem : Type := string -> option string.

Definition fs_read (fs : FileSystem) (name : string) : result string :=
  match fs name with
  | Some content => Ok content
  | None => Raise FileNotFoundError
  end.

Definition fs_write (fs : FileSystem) (name content : string) : FileSystem :=
  fun n => if String.eqb n name then Some content else fs n.

(** ** extract_sentences *)

(** [(int(s.split('-')[0]), int(s.split('-')[1]))] *)
Definition alignment_pair (s : string) : result (Z * Z) :=
  p0 <- list_getitem (split_on "-" s) 0 ;;
  a <- py_int p0 ;;
  p1 <- list_getitem (split_on "-" s) 1 ;;
  b <- py_int p1 ;;
  Ok (a, b).

(** The text of an alignment field, [[]] when the field has no text. *)
Definition alignment_field (e : Element) : result (list (Z * Z)) :=
  match text e with
  | Some t => comprehension alignment_pair (split_ws t)
  | None => Ok []
  end.

(** One round of [for token in root]. *)
Definition extract_body
  (st : list SentencePair * list LabeledAlignment) (token : Element)
  : result (list SentencePair * list LabeledAlignment) :=
  let '(sentence_pairs, alignments) := st in
  t0 <- element_getitem token 0 ;;
  src <- text_split t0 ;;
  t1 <- element_getitem token 1 ;;
  tgt <- text_split t1 ;;
  let sentence := mkSentencePair src tgt in
  let sentence_pairs := sentence_pairs ++ [sentence] in
  t2 <- element_getitem token 2 ;;
  sure <- alignment_field t2 ;;
  t3 <- element_getitem token 3 ;;
  possible <- alignment_field t3 ;;
  let alignment := mkLabeledAlignment sure possible in
  Ok (sentence_pairs, alignments ++ [alignment]).

(** The loop over the children of the root. *)
Definition extract_root (root : Element)
  : result (list SentencePair * list LabeledAlignment) :=
  for_each extract_body (children root) ([], []).

(** [xml_parse] is the parser of the XML library, from the content of a
    file to its root element. *)
Definition extract_sentences (xml_parse : string -> result Element)
  (fs : FileSystem) (filename : string)
  : FileSystem * result (list SentencePair * list LabeledAlignment) :=
  match fs_read fs filename with
  | Raise e => (fs, Raise e)
  | Ok s =>
      let s := replace_char "&" "&amp;" s in
      let fs := fs_write fs "new" s in
      (fs, content <- fs_read fs "new" ;;
           root <- xml_parse content ;;
           extract_root root)
  end.

(** ** get_token_to_index *)

(** The body of the counting loops. *)
Definition count_token (vocab : PyDict Z) (token : string) : PyDict Z :=
  match dict_get vocab token with
  | Some n => dict_set vocab token (n + 1)
  | None => dict_set vocab token 1
  end.

(** [{token: it for it, token in pairs}] *)
Definition index_dict (pairs : list (Z * string)) : PyDict Z :=
  fold_left (fun d p => dict_set d (snd p) (fst p)) pairs [].

Definition get_token_to_index (sentence_pairs : list SentencePair)
  (freq_cutoff : option Z) : PyDict Z * PyDict Z :=
  let '(source_vocab, target_vocab) :=
    fold_left
      (fun (st : PyDict Z * PyDict Z) sentense =>
         let '(source_vocab, target_vocab) := st in
         (fold_left count_token (source sentense) source_vocab,
          fold_left count_token (target sentense) target_vocab))
      sentence_pairs ([], []) in
  let source_vocab :=
    dict_of_items (sorted_reverse snd (dict_items source_vocab)) in
  let target_vocab :=
    dict_of_items (sorted_reverse snd (dict_items target_vocab)) in
  match freq_cutoff with
  | Some k =>
      (index_dict (enumerate (slice_to (dict_keys source_vocab) k)),
       index_dict (enumerate (slice_to (dict_keys target_vocab) k)))
  | None =>
      (index_dict (enumerate (dict_keys source_vocab)),
       index_dict (enumerate (dict_keys target_vocab)))
  end.

(** ** tokenize_sents *)

(** The inner loops: append the index of a known token, start again from
    the empty list at an unknown one. *)
Definition index_step (dict : PyDict Z) (ints : list Z) (token : string)
  : list Z :=
  match dict_get dict token with
  | Some i => ints ++ [i]
  | None => []
  end.

Definition index_tokens (dict : PyDict Z) (tokens : list string) : list Z :=
  fold_left (index_step dict) tokens [].

(** [np.array(ints)] is the list of its integers: exact as long as they
    fit 64-bit signed integers, which vocabulary indices do. *)
Definition tokenize_sents (sentence_pairs : list SentencePair)
  (source_dict target_dict : PyDict Z) : list TokenizedSentencePair :=
  fold_left
    (fun res sentense =>
       let source_ints := index_tokens source_dict (source sentense) in
       let target_ints := index_tokens target_dict (target sentense) in
       if negb (List.length target_ints =? 0)%nat
          && negb (List.length source_ints =? 0)%nat
       then res ++ [mkTokenizedSentencePair source_ints target_ints]
       else res)
    sentence_pairs [].

(** ** Notions the properties are stated with *)

(** The tokens of one side of the corpus, in reading order. *)
Definition source_stream (sentence_pairs : list SentencePair) : list string :=
  flat_map source sentence_pairs.

Definition target_stream (sentence_pairs : list SentencePair) : list string :=
  flat_map target sentence_pairs.

(** Number of occurrences of a token. *)
Definition freq (stream : list string) (t : string) : Z :=
  Z.of_nat (count_occ string_dec stream t).

(** Position of the first occurrence of a token. *)
Fixpoint first_pos (stream : list string) (t : string) : nat :=
  match stream with
  | [] => O
  | x :: stream' => if String.eqb x t then O else S (first_pos stream' t)
  end.

(** The distinct tokens in the order they are first met. *)
Fixpoint first_seen (stream : list string) : list string :=
  match stream with
  | [] => []
  | x :: stream' =>
      x :: filter (fun y => negb (String.eqb x y)) (first_seen stream')
  end.

Definition distinct_count (stream : list string) : nat :=
  List.length (nodup string_dec stream).

(** [u] comes before [t] in the frequency ranking: it is more frequent,
    or as frequent and met earlier. *)
Definition precedes (stream : list string) (u t : string) : Prop :=
  freq stream t < freq stream u
  \/ (freq stream u = freq stream t
      /\ (first_pos stream u < first_pos stream t)%nat).

Definition precedesb (stream : list string) (u t : string) : bool :=
  (freq stream t <? freq stream u)
  || ((freq stream u =? freq stream t)
      && (first_pos stream u <? first_pos stream t)%nat).

(** Number of distinct tokens that come before [t] in the ranking. *)
Definition rank (stream : list string) (t : string) : nat :=
  List.length
    (filter (fun u => precedesb stream u t) (nodup string_dec stream)).

(** The counting dictionary after reading [stream]. *)
Definition counts (stream : list string) : PyDict Z :=
  map (fun t => (t, freq stream t)) (first_seen stream).

(** The keys of the sorted dictionary. *)
Definition ranking (stream : list string) : list string :=
  map fst (sorted_reverse snd (counts stream)).

(** [[0; 1; ...; n-1]] *)
Definition zrange (n : nat) : list Z := map Z.of_nat (seq 0 n).

Definition cut {A : Type} (freq_cutoff : option Z) (l : list A) : list A :=
  match freq_cutoff with
  | Some k => slice_to l k
  | None => l
  end.

(** The dictionary that numbers [keys] from 0. *)
Definition numbered (keys : list string) : PyDict Z :=
  combine keys (zrange (List.length keys)).

Definition in_vocab (d : PyDict Z) (t : string) : Prop :=
  dict_get d t <> None.

(** C3: smaller index means higher in the ranking, and index 0 is a most
    frequent retained token. *)
Definition ranked_by_frequency (stream : list string) (vocab : PyDict Z)
  : Prop :=
  (forall t1 t2 i1 i2,
      dict_get vocab t1 = Some i1 -> dict_get vocab t2 = Some i2 ->
      i1 < i2 ->
      freq stream t2 <= freq stream t1
      /\ (freq stream t1 = freq stream t2 ->
          (first_pos stream t1 < first_pos stream t2)%nat))
  /\ (forall t t',
      dict_get vocab t = Some 0 -> in_vocab vocab t' ->
      freq stream t' <= freq stream t).

(** C4: the vocabulary holds the [min k distinct] first tokens of the
    ranking, each at its rank, and nothing else. *)
Definition keeps_top (k : Z) (stream : list string) (vocab : PyDict Z)
  : Prop :=
  Z.of_nat (List.length vocab) = Z.min k (Z.of_nat (distinct_count stream))
  /\ (forall t i,
      dict_get vocab t = Some i <->
      In t stream /\ i = Z.of_nat (rank stream t) /\ i < k)
  /\ (forall t, In t stream -> k <= Z.of_nat (rank stream t) ->
                dict_get vocab t = None).

Definition keeps_all (stream : list string) (vocab : PyDict Z) : Prop :=
  List.length vocab = distinct_count stream
  /\ (forall t, in_vocab vocab t <-> In t stream).

(** C6: distinct keys, and the indices are [0 .. size-1] in this order. *)
Definition dense_index (vocab : PyDict Z) : Prop :=
  NoDup (dict_keys vocab)
  /\ map snd vocab = zrange (List.length vocab)
  /\ (forall i, (exists t, dict_get vocab t = Some i) <->
                0 <= i < Z.of_nat (List.length vocab)).

(** C5: what [tokenize_sents] keeps of one pair. *)
Definition tokenize_pair (source_dict target_dict : PyDict Z)
  (p : SentencePair) : TokenizedSentencePair :=
  mkTokenizedSentencePair (index_tokens source_dict (source p))
                          (index_tokens target_dict (target p)).

Definition is_nil {A : Type} (l : list A) : bool :=
  match l with
  | [] => true
  | _ :: _ => false
  end.

Definition both_nonempty (source_dict target_dict : PyDict Z)
  (p : SentencePair) : bool :=
  negb (is_nil (index_tokens source_dict (source p)))
  && negb (is_nil (index_tokens target_dict (target p))).

(** The two lists are as long as [cs], and at each index they hold
    what the loop body appends for the child at this index. *)
Definition records_of_children (cs : list Element)
  (sps : list SentencePair) (als : list LabeledAlignment) : Prop :=
  List.length sps = List.length cs
  /\ List.length als = List.length cs
  /\ (forall i child,
      nth_error cs i = Some child ->
      exists sp al,
        nth_error sps i = Some sp /\ nth_error als i = Some al
        /\ extract_body ([], []) child = Ok ([sp], [al])).

(** The tokens of a field: none when the field has no text. *)
Definition field_tokens (e : Element) : list string :=
  match text e with
  | Some s => split_ws s
  | None => []
  end.

(** The pair [p] is what the alignment token [tok] says: the integers
    written in its first two dash-separated pieces. *)
Definition reads_as (tok : string) (p : Z * Z) : Prop :=
  exists a b rest,
    split_on "-" tok = a :: b :: rest
    /\ py_int a = Ok (fst p) /\ py_int b = Ok (snd p).

(** C2: the records of a sentence element, in the words of the format:
    the source and target tokens are the pieces of the texts of its
    sub-elements 0 and 1, the sure and possible pairs are what the
    tokens of its sub-elements 2 and 3 say, one pair per token, in
    order. *)
Definition built_from (child : Element) (sp : SentencePair)
  (al : LabeledAlignment) : Prop :=
  exists t0 t1 t2 t3 s0 s1,
    nth_error (children child) 0 = Some t0
    /\ nth_error (children child) 1 = Some t1
    /\ nth_error (children child) 2 = Some t2
    /\ nth_error (children child) 3 = Some t3
    /\ text t0 = Some s0 /\ text t1 = Some s1
    /\ source sp = split_ws s0 /\ target sp = split_ws s1
    /\ Forall2 reads_as (field_tokens t2) (sure al)
    /\ Forall2 reads_as (field_tokens t3) (possible al).

Definition aligned_with_children (cs : list Element)
  (sps : list SentencePair) (als : list LabeledAlignment) : Prop :=
  List.length sps = List.length cs
  /\ List.length als = List.length cs
  /\ (forall i child,
      nth_error cs i = Some child ->
      exists sp al,
        nth_error sps i = Some sp /\ nth_error als i = Some al
        /\ built_from child sp al).

(** C9: each alignment says what the tokens of sub-elements 2 and 3 of
    the sentence element of the same index say. *)
Definition positions_verbatim (root : Element)
  (als : list LabeledAlignment) : Prop :=
  forall i al,
    nth_error als i = Some al ->
    exists child t2 t3,
      nth_error (children root) i = Some child
      /\ nth_error (children child) 2 = Some t2
      /\ nth_error (children child) 3 = Some t3
      /\ Forall2 reads_as (field_tokens t2) (sure al)
      /\ Forall2 reads_as (field_tokens t3) (possible al).

(** C8: every ampersand of [s] starts the entity [&amp;]. *)
Fixpoint amp_escaped (s : string) : bool :=
  match s with
  | EmptyString => true
  | String c rest =>
      (if Ascii.eqb c "&"%char then String.prefix "amp;" rest else true)
      && amp_escaped rest
  end.

(** The character-level reading of the substitution. *)
Definition escape_char (c : ascii) : string :=
  if Ascii.eqb c "&"%char then "&amp;" else String c EmptyString.

(** C9: bounds on the positions of the alignments. *)
Definition positions_at_least (lo : Z) (alignments : list LabeledAlignment)
  : Prop :=
  forall al p, In al alignments -> In p (sure al ++ possible al) ->
               lo <= fst p /\ lo <= snd p.

Definition all_space (s : string) : Prop :=
  Forall (fun c => isspace c = true) (list_ascii_of_string s).

(** ** Notions for the further properties *)

(** The last token of [tokens] has an entry in [d]. *)
Definition last_known (d : PyDict Z) (tokens : list string) : bool :=
  match rev tokens with
  | t :: _ =>
      match dict_get d t with
      | Some _ => true
      | None => false
      end
  | [] => false
  end.

(** The corpus read in the other direction. *)
Definition swap_sides (p : SentencePair) : SentencePair :=
  mkSentencePair (target p) (source p).

Definition rank_index (stream : list string) (t : string) : Z :=
  Z.of_nat (rank stream t).

(** A sentence pair with a token on each side. *)
Definition has_tokens (p : SentencePair) : bool :=
  negb (is_nil (source p)) && negb (is_nil (target p)).

(** A token as [split()] gives them: not empty, no whitespace. *)
Definition is_token (t : string) : Prop :=
  t <> EmptyString
  /\ Forall (fun c => isspace c = false) (list_ascii_of_string t).

(** Tokens written one after the other with a space in between. *)
Fixpoint join_space (tokens : list string) : string :=
  match tokens with
  | [] => EmptyString
  | t :: rest =>
      match rest with
      | [] => t
      | _ :: _ => String.append t (String " " (join_space rest))
      end
  end.

(** A natural number written in decimal. *)
Definition decimal (n : nat) : string :=
  DecimalString.NilEmpty.string_of_uint (Nat.to_uint n).

Definition no_dash (s : string) : Prop :=
  ~ In "-"%char (list_ascii_of_string s).

(** The child reduced to the texts of its first four sub-elements. *)
Definition four_texts (t0 t1 t2 t3 : Element) : Element :=
  mkElement None
    [mkElement (text t0) []; mkElement (text t1) [];
     mkElement (text t2) []; mkElement (text t3) []].

(** A document written from records: tokens separated by one space,
    alignments as decimal pairs; an element without content has no
    text. *)
Definition alignment_token (p : nat * nat) : string :=
  String.append (decimal (fst p)) (String "-" (decimal (snd p))).

Definition alignment_text (ps : list (nat * nat)) : string :=
  join_space (map alignment_token ps).

Definition positions_of (ps : list (nat * nat)) : list (Z * Z) :=
  map (fun p => (Z.of_nat (fst p), Z.of_nat (snd p))) ps.

Definition element_with (content : string) : Element :=
  mkElement (if is_empty content then None else Some content) [].

Record Entry : Type := mkEntry {
  entry_source : list string;
  entry_target : list string;
  entry_sure : list (nat * nat);
  entry_possible : list (nat * nat)
}.

Definition entry_element (e : Entry) : Element :=
  mkElement None
    [element_with (join_space (entry_source e));
     element_with (join_space (entry_target e));
     element_with (alignment_text (entry_sure e));
     element_with (alignment_text (entry_possible e))].

Definition entry_pair (e : Entry) : SentencePair :=
  mkSentencePair (entry_source e) (entry_target e).

Definition entry_alignment (e : Entry) : LabeledAlignment :=
  mkLabeledAlignment (positions_of (entry_sure e))
                     (positions_of (entry_possible e)).

(** A number [int] reads back: at most 4300 decimal digits. *)
Definition readable (n : nat) : Prop :=
  Z.of_nat (String.length (decimal n)) <= int_max_str_digits.

Definition readable_pair (p : nat * nat) : Prop :=
  readable (fst p) /\ readable (snd p).

Definition entry_ok (e : Entry) : Prop :=
  entry_source e <> [] /\ entry_target e <> []
  /\ Forall is_token (entry_source e) /\ Forall is_token (entry_target e)
  /\ Forall readable_pair (entry_sure e)
  /\ Forall readable_pair (entry_possible e).

(** All the values of a dictionary fit 64-bit signed integers. *)
Definition int64_values (d : PyDict Z) : Prop :=
  Forall (fun kv => - 2 ^ 63 <= snd kv < 2 ^ 63) d.

(** A document as a producer writes it: every element under the tag [e],
    its text as it stands, then its sub-elements. *)
Fixpoint xml_write (e : Element) : string :=
  match e with
  | mkElement t cs =>
      String.append "<e>"
        (String.append (match t with Some s => s | None => EmptyString end)
           (fold_right (fun c acc => String.append (xml_write c) acc)
                       "</e>" cs))
  end.

(** The same tree with [f] applied to every text. *)
Fixpoint map_text (f : string -> string) (e : Element) : Element :=
  match e with
  | mkElement t cs => mkElement (option_map f t) (map (map_text f) cs)
  end.

Definition escape_amp (s : string) : string := replace_char "&" "&amp;" s.

(** The well-formed document of a tree: ampersands of the texts written
    as the entity. *)
Definition xml_serialize (e : Element) : string :=
  xml_write (map_text escape_amp e).

Definition corpus_tree (es : list Entry) : Element :=
  mkElement None (map entry_element es).

Definition escape_entry (e : Entry) : Entry :=
  mkEntry (map escape_amp (entry_source e)) (map escape_amp (entry_target e))
          (entry_sure e) (entry_possible e).

(** The number of whitespace-separated tokens of a field. *)
Definition field_size (e : Element) : nat :=
  match text e with
  | Some s => List.length (split_ws s)
  | None => O
  end.

(** The last token of [tokens] is among the [k] first of the ranking. *)
Definition last_in_top (k : Z) (stream tokens : list string) : bool :=
  match rev tokens with
  | t :: _ => Z.of_nat (rank stream t) <? k
  | [] => false
  end.

(** * Properties *)

(** ** Dictionaries *)

Lemma dict_get_in_keys {V : Type} (d : PyDict V) (k : string) :
  dict_get d k <> None <-> In k (dict_keys d).
Proof.
  induction d as [| [k' v] d IH]; simpl.
  - split; [congruence | tauto].
  - destruct (String.eqb_spec k' k) as [-> | Hne].
    + split; [auto | congruence].
    + rewrite IH. split; [auto | intros [H | H]; [contradiction | exact H]].
Qed.

Lemma dict_get_none {V : Type} (d : PyDict V) (k : string) :
  dict_get d k = None <-> ~ In k (dict_keys d).
Proof.
  rewrite <- dict_get_in_keys.
  destruct (dict_get d k); split; try congruence; intro H.
  exfalso; apply H; discriminate.
Qed.

(** ** tokenize_sents *)

Section IndexTokens.

Variable dict : PyDict Z.

Lemma index_known_suffix (tokens : list string) (ints : list Z) :
  Forall (in_vocab dict) tokens ->
  map Some (fold_left (index_step dict) tokens ints)
  = map Some ints ++ map (dict_get dict) tokens.
Proof.
  revert ints.
  induction tokens as [| t tokens IH]; intros ints Hall; simpl.
  - now rewrite app_nil_r.
  - inversion Hall as [| ? ? Ht Hrest]; subst.
    rewrite (IH _ Hrest). unfold index_step, in_vocab in *.
    destruct (dict_get dict t) as [i |]; [| congruence].
    rewrite map_app, <- app_assoc. reflexivity.
Qed.

Lemma index_reset (pre suf : list string) (x : string) (ints : list Z) :
  dict_get dict x = None ->
  fold_left (index_step dict) (pre ++ x :: suf) ints = fold_left (index_step dict) suf [].
Proof.
  intro Hx. rewrite fold_left_app. simpl.
  unfold index_step at 2. now rewrite Hx.
Qed.

Lemma index_tokens_all_known (tokens : list string) :
  Forall (in_vocab dict) tokens ->
  map Some (index_tokens dict tokens) = map (dict_get dict) tokens.
Proof.
  intro Hall. unfold index_tokens.
  now rewrite (index_known_suffix tokens [] Hall).
Qed.

Lemma index_tokens_after_last_miss (pre suf : list string) (x : string) :
  dict_get dict x = None ->
  Forall (in_vocab dict) suf ->
  map Some (index_tokens dict (pre ++ x :: suf)) = map (dict_get dict) suf.
Proof.
  intros Hx Hall. unfold index_tokens.
  rewrite (index_reset pre suf x [] Hx).
  now rewrite (index_known_suffix suf [] Hall).
Qed.

End IndexTokens.

Lemma tokenize_sents_from (sd td : PyDict Z) (pairs : list SentencePair)
  (res : list TokenizedSentencePair) :
  fold_left
    (fun res sentense =>
       let source_ints := index_tokens sd (source sentense) in
       let target_ints := index_tokens td (target sentense) in
       if negb (List.length target_ints =? 0)%nat
          && negb (List.length source_ints =? 0)%nat
       then res ++ [mkTokenizedSentencePair source_ints target_ints]
       else res)
    pairs res
  = res ++ map (tokenize_pair sd td) (filter (both_nonempty sd td) pairs).
Proof.
  revert res.
  induction pairs as [| p pairs IH]; intro res; simpl.
  - now rewrite app_nil_r.
  - rewrite IH.
    assert (Hhead : both_nonempty sd td p
                    = negb (List.length (index_tokens td (target p)) =? 0)%nat
                      && negb (List.length (index_tokens sd (source p)) =? 0)%nat).
    { unfold both_nonempty.
      destruct (index_tokens sd (source p)), (index_tokens td (target p));
        reflexivity. }
    rewrite Hhead.
    destruct (negb (List.length (index_tokens td (target p)) =? 0)%nat
              && negb (List.length (index_tokens sd (source p)) =? 0)%nat).
    + rewrite <- app_assoc. reflexivity.
    + reflexivity.
Qed.

Lemma tokenize_sents_filter (sd td : PyDict Z) (pairs : list SentencePair) :
  tokenize_sents pairs sd td
  = map (tokenize_pair sd td) (filter (both_nonempty sd td) pairs).
Proof.
  unfold tokenize_sents. now rewrite tokenize_sents_from.
Qed.

(** C1. On each side [tokenize_sents] maps the tokens that follow the last
    token missing from the vocabulary, and all the tokens when none is
    missing; the source sentence [a b c] under [{a: 0, c: 1}] becomes
    [[1]]. *)
Theorem tokenize_sents_reset_on_miss :
  forall (dict : PyDict Z) (tokens : list string),
    (forall pre x suf,
        tokens = pre ++ x :: suf ->
        dict_get dict x = None ->
        Forall (in_vocab dict) suf ->
        map Some (index_tokens dict tokens) = map (dict_get dict) suf)
    /\ (Forall (in_vocab dict) tokens ->
        map Some (index_tokens dict tokens) = map (dict_get dict) tokens)
    /\ (forall sd td pairs,
        map source_tokens (tokenize_sents pairs sd td)
        = map (fun p => index_tokens sd (source p))
              (filter (both_nonempty sd td) pairs)
        /\ map target_tokens (tokenize_sents pairs sd td)
           = map (fun p => index_tokens td (target p))
                 (filter (both_nonempty sd td) pairs))
    /\ index_tokens [("a", 0); ("c", 1)] ["a"; "b"; "c"] = [1]
    /\ (forall tgt td,
        index_tokens td tgt <> [] ->
        tokenize_sents [mkSentencePair ["a"; "b"; "c"] tgt]
                       [("a", 0); ("c", 1)] td
        = [mkTokenizedSentencePair [1] (index_tokens td tgt)]).
Proof.
  intros dict tokens. repeat split.
  - intros pre x suf -> Hx Hall.
    now apply index_tokens_after_last_miss.
  - apply index_tokens_all_known.
  - rewrite tokenize_sents_filter, map_map. reflexivity.
  - rewrite tokenize_sents_filter, map_map. reflexivity.
  - intros tgt td Hne. rewrite tokenize_sents_filter. simpl.
    unfold both_nonempty. simpl.
    destruct (index_tokens td tgt) eqn:E; [congruence |].
    simpl. unfold tokenize_pair. simpl. now rewrite E.
Qed.

Lemma tokenize_sents_reset_on_miss_witness :
  map Some (index_tokens [("a", 0); ("c", 1)] ["a"; "b"; "c"])
  = map (dict_get [("a", 0); ("c", 1)]) ["c"].
Proof.
  apply (proj1 (tokenize_sents_reset_on_miss
                  [("a", 0); ("c", 1)] ["a"; "b"; "c"]) ["a"] "b" ["c"]).
  - reflexivity.
  - reflexivity.
  - repeat constructor; unfold in_vocab; simpl; discriminate.
Defined.

(** C5. [tokenize_sents] keeps, in their order, exactly the pairs whose
    two index lists are both non-empty; its result is no longer than the
    corpus and has no empty array. *)
Theorem tokenize_sents_keeps_nonempty :
  forall (pairs : list SentencePair) (sd td : PyDict Z),
    tokenize_sents pairs sd td
    = map (tokenize_pair sd td) (filter (both_nonempty sd td) pairs)
    /\ (List.length (tokenize_sents pairs sd td) <= List.length pairs)%nat
    /\ Forall (fun r => source_tokens r <> [] /\ target_tokens r <> [])
              (tokenize_sents pairs sd td).
Proof.
  intros pairs sd td. rewrite tokenize_sents_filter. repeat split.
  - rewrite length_map. apply filter_length_le.
  - apply Forall_forall. intros r Hr.
    apply in_map_iff in Hr. destruct Hr as [p [<- Hp]].
    apply filter_In in Hp. destruct Hp as [_ Hp].
    unfold both_nonempty in Hp. apply andb_prop in Hp.
    destruct Hp as [Hs Ht]. unfold tokenize_pair; simpl.
    split; intro E; rewrite E in *; discriminate.
Qed.

(** ** Counting *)

Lemma freq_snoc (s : list string) (t u : string) :
  freq (s ++ [t]) u = freq s u + (if String.eqb t u then 1 else 0).
Proof.
  unfold freq. rewrite count_occ_app. simpl.
  destruct (string_dec t u) as [-> | Hne].
  - rewrite String.eqb_refl. lia.
  - apply String.eqb_neq in Hne. rewrite Hne. lia.
Qed.

Lemma first_seen_In (s : list string) (t : string) :
  In t (first_seen s) <-> In t s.
Proof.
  induction s as [| x s IH]; simpl; [tauto |].
  rewrite filter_In, IH.
  destruct (String.eqb_spec x t) as [-> | Hne]; simpl.
  - split; auto.
  - split; [intros [H | [H _]]; auto | intros [H | H]; auto].
Qed.

Lemma first_seen_NoDup (s : list string) : NoDup (first_seen s).
Proof.
  induction s as [| x s IH]; simpl; constructor.
  - rewrite filter_In. intros [_ H]. now rewrite String.eqb_refl in H.
  - now apply NoDup_filter.
Qed.

Lemma first_seen_snoc (s : list string) (t : string) :
  first_seen (s ++ [t])
  = if in_dec string_dec t s then first_seen s else first_seen s ++ [t].
Proof.
  induction s as [| x s IH]; simpl.
  - reflexivity.
  - rewrite IH.
    destruct (in_dec string_dec t s) as [Hin | Hnin];
      destruct (string_dec x t) as [-> | Hne]; try reflexivity.
    + rewrite filter_app. simpl. rewrite String.eqb_refl. simpl.
      now rewrite app_nil_r.
    + rewrite filter_app. simpl.
      apply String.eqb_neq in Hne. rewrite Hne. reflexivity.
Qed.

Lemma dict_get_tabulate (g : string -> Z) (l : list string) (t : string) :
  In t l -> dict_get (map (fun u => (u, g u)) l) t = Some (g t).
Proof.
  induction l as [| x l IH]; simpl; [tauto |].
  intros [-> | Hin].
  - now rewrite String.eqb_refl.
  - destruct (String.eqb_spec x t) as [-> | _]; auto.
Qed.

Lemma dict_set_tabulate_known (g : string -> Z) (l : list string)
  (t : string) (v : Z) :
  NoDup l -> In t l ->
  dict_set (map (fun u => (u, g u)) l) t v
  = map (fun u => (u, if String.eqb t u then v else g u)) l.
Proof.
  induction l as [| x l IH]; simpl; [tauto |].
  intros Hnd Hin. inversion Hnd as [| ? ? Hx Hl]; subst.
  destruct (String.eqb_spec x t) as [-> | Hne].
  - rewrite String.eqb_refl. f_equal.
    apply map_ext_in. intros u Hu.
    destruct (String.eqb_spec t u) as [-> | _]; [contradiction | reflexivity].
  - destruct Hin as [-> | Hin]; [contradiction |].
    rewrite (IH Hl Hin).
    destruct (String.eqb_spec t x) as [-> | _]; [contradiction | reflexivity].
Qed.

Lemma dict_set_fresh {V : Type} (d : PyDict V) (k : string) (v : V) :
  ~ In k (dict_keys d) -> dict_set d k v = d ++ [(k, v)].
Proof.
  induction d as [| [k' v'] d IH]; simpl; intro Hnin; [reflexivity |].
  destruct (String.eqb_spec k' k) as [-> | _].
  - exfalso; auto.
  - rewrite IH; auto.
Qed.

Lemma count_token_counts (s : list string) (t : string) :
  count_token (counts s) t = counts (s ++ [t]).
Proof.
  unfold count_token, counts. rewrite first_seen_snoc.
  destruct (in_dec string_dec t s) as [Hin | Hnin].
  - rewrite dict_get_tabulate by now apply first_seen_In.
    rewrite dict_set_tabulate_known
      by (try apply first_seen_NoDup; now apply first_seen_In).
    apply map_ext. intro u. rewrite freq_snoc.
    destruct (String.eqb_spec t u) as [-> | _]; f_equal; lia.
  - assert (Hkeys : ~ In t (dict_keys (map (fun u => (u, freq s u))
                                           (first_seen s)))).
    { unfold dict_keys. rewrite map_map. simpl. rewrite map_id.
      now rewrite first_seen_In. }
    rewrite (proj2 (dict_get_none _ _) Hkeys).
    rewrite dict_set_fresh by exact Hkeys.
    rewrite map_app. simpl. f_equal.
    + apply map_ext_in. intros u Hu. rewrite freq_snoc.
      destruct (String.eqb_spec t u) as [-> | _]; [| f_equal; lia].
      exfalso. apply Hnin. now apply first_seen_In.
    + rewrite freq_snoc, String.eqb_refl.
      unfold freq. rewrite (proj1 (count_occ_not_In string_dec s t) Hnin).
      reflexivity.
Qed.

Lemma count_loop_counts (s s' : list string) :
  fold_left count_token s' (counts s) = counts (s ++ s').
Proof.
  revert s. induction s' as [| t s' IH]; intro s; simpl.
  - now rewrite app_nil_r.
  - rewrite count_token_counts, IH, <- app_assoc. reflexivity.
Qed.

Lemma counting_loops (pairs : list SentencePair) (s1 s2 : list string) :
  fold_left
    (fun (st : PyDict Z * PyDict Z) sentense =>
       let '(source_vocab, target_vocab) := st in
       (fold_left count_token (source sentense) source_vocab,
        fold_left count_token (target sentense) target_vocab))
    pairs (counts s1, counts s2)
  = (counts (s1 ++ source_stream pairs), counts (s2 ++ target_stream pairs)).
Proof.
  revert s1 s2. induction pairs as [| p pairs IH]; intros s1 s2; simpl.
  - now rewrite !app_nil_r.
  - rewrite !count_loop_counts, IH, <- !app_assoc. reflexivity.
Qed.

(** ** Sorting *)

Lemma StronglySorted_filter_impl {A : Type} (R R' : A -> A -> Prop)
  (f : A -> bool) (l : list A) :
  (forall a b, f a = true -> f b = true -> R a b -> R' a b) ->
  StronglySorted R l -> StronglySorted R' (filter f l).
Proof.
  intros Himp Hs. induction Hs as [| a l Hs IH Hall]; simpl.
  - constructor.
  - destruct (f a) eqn:Ea; [| exact IH].
    constructor; [exact IH |].
    apply Forall_forall. intros b Hb. apply filter_In in Hb.
    destruct Hb as [Hb Eb]. rewrite Forall_forall in Hall. auto.
Qed.

Lemma StronglySorted_map_in {A B : Type} (R : A -> A -> Prop)
  (R' : B -> B -> Prop) (f : A -> B) (l : list A) :
  (forall a b, In a l -> In b l -> R a b -> R' (f a) (f b)) ->
  StronglySorted R l -> StronglySorted R' (map f l).
Proof.
  intros Himp Hs. induction Hs as [| a l Hs IH Hall]; simpl.
  - constructor.
  - constructor.
    + apply IH. intros x y Hx Hy. apply Himp; now right.
    + apply Forall_forall. intros b Hb. apply in_map_iff in Hb.
      destruct Hb as [y [<- Hy]]. rewrite Forall_forall in Hall.
      apply Himp; [now left | now right | auto].
Qed.

Lemma StronglySorted_split {A : Type} (R : A -> A -> Prop)
  (l1 l2 : list A) (x : A) :
  StronglySorted R (l1 ++ x :: l2) ->
  Forall (fun a => R a x) l1 /\ Forall (R x) l2.
Proof.
  induction l1 as [| a l1 IH]; simpl; intro Hs.
  - split; [constructor | now apply StronglySorted_inv in Hs].
  - apply StronglySorted_inv in Hs. destruct Hs as [Hs Hall].
    destruct (IH Hs) as [H1 H2]. split; [| exact H2].
    constructor; [| exact H1].
    rewrite Forall_forall in Hall. apply Hall, in_elt.
Qed.

Lemma StronglySorted_nth {A : Type} (R : A -> A -> Prop) (l : list A)
  (i j : nat) (a b : A) :
  StronglySorted R l -> (i < j)%nat ->
  nth_error l i = Some a -> nth_error l j = Some b -> R a b.
Proof.
  intros Hs Hij Ha Hb.
  destruct (nth_error_split _ _ Hb) as [l1 [l2 [-> Hlen]]].
  destruct (StronglySorted_split _ _ _ _ Hs) as [H1 _].
  rewrite nth_error_app1 in Ha by lia.
  rewrite Forall_forall in H1. apply H1. eapply nth_error_In; eauto.
Qed.

Section StableSort.

Variables (A : Type) (key : A -> Z) (pos : A -> nat).

Lemma insert_desc_perm (x : A) (l : list A) :
  Permutation (insert_desc key x l) (x :: l).
Proof.
  induction l as [| y l IH]; simpl; [reflexivity |].
  destruct (key y <=? key x); [reflexivity |].
  rewrite IH. apply perm_swap.
Qed.

Lemma sorted_reverse_perm (l : list A) :
  Permutation (sorted_reverse key l) l.
Proof.
  induction l as [| x l IH]; simpl; [reflexivity |].
  rewrite insert_desc_perm. now constructor.
Qed.

Lemma insert_desc_stable (x : A) (l : list A) :
  StronglySorted (sorted_before key pos) l ->
  Forall (fun b => (pos x < pos b)%nat) l ->
  StronglySorted (sorted_before key pos) (insert_desc key x l).
Proof.
  intros Hs Hpos. induction Hs as [| y l Hs IH Hall]; simpl.
  - repeat constructor.
  - inversion Hpos as [| ? ? Hy Hl]; subst.
    destruct (Z.leb_spec (key y) (key x)) as [Hle | Hlt].
    + constructor; [now constructor |].
      assert (Hkeys : Forall (fun b => key b <= key x) (y :: l)).
      { constructor; [exact Hle |].
        rewrite Forall_forall in *. intros b Hb.
        destruct (Hall b Hb) as [H | [H _]]; lia. }
      rewrite Forall_forall in *. intros b Hb.
      specialize (Hkeys b Hb). specialize (Hpos b Hb). unfold sorted_before.
      destruct (Z.eq_dec (key x) (key b)); [right; now split | left; lia].
    + constructor; [now apply IH |].
      rewrite Forall_forall in *. intros b Hb.
      apply (Permutation_in _ (insert_desc_perm x l)) in Hb.
      destruct Hb as [<- | Hb]; [left; exact Hlt | now apply Hall].
Qed.

Lemma sorted_reverse_stable (l : list A) :
  StronglySorted (fun a b => (pos a < pos b)%nat) l ->
  StronglySorted (sorted_before key pos) (sorted_reverse key l).
Proof.
  intro Hs. induction Hs as [| x l Hs IH Hall]; simpl.
  - constructor.
  - apply insert_desc_stable; [exact IH |].
    rewrite Forall_forall in *. intros b Hb. apply Hall.
    now apply (Permutation_in _ (sorted_reverse_perm l)).
Qed.

End StableSort.

(** ** The frequency ranking *)

Lemma first_pos_head (x : string) (s : list string) :
  first_pos (x :: s) x = O.
Proof. simpl. now rewrite String.eqb_refl. Qed.

Lemma first_pos_tail (x t : string) (s : list string) :
  x <> t -> first_pos (x :: s) t = S (first_pos s t).
Proof. intro Hne. simpl. apply String.eqb_neq in Hne. now rewrite Hne. Qed.

Lemma first_seen_sorted (s : list string) :
  StronglySorted (fun t u => (first_pos s t < first_pos s u)%nat)
                 (first_seen s).
Proof.
  induction s as [| x s IH]; simpl first_seen; constructor.
  - eapply StronglySorted_filter_impl; [| exact IH].
    intros a b Ha Hb Hab. apply negb_true_iff, String.eqb_neq in Ha, Hb.
    rewrite !first_pos_tail by assumption. simpl in Hab. lia.
  - apply Forall_forall. intros u Hu. apply filter_In in Hu.
    destruct Hu as [_ Hu]. apply negb_true_iff, String.eqb_neq in Hu.
    rewrite first_pos_head, first_pos_tail by assumption. lia.
Qed.

Lemma ranking_perm (s : list string) :
  Permutation (ranking s) (first_seen s).
Proof.
  unfold ranking. rewrite sorted_reverse_perm. unfold counts.
  rewrite map_map. simpl. now rewrite map_id.
Qed.

Lemma ranking_In (s : list string) (t : string) :
  In t (ranking s) <-> In t s.
Proof.
  split; intro H.
  - apply first_seen_In. exact (Permutation_in _ (ranking_perm s) H).
  - apply (Permutation_in _ (Permutation_sym (ranking_perm s))).
    now apply first_seen_In.
Qed.

Lemma ranking_NoDup (s : list string) : NoDup (ranking s).
Proof.
  eapply Permutation_NoDup; [symmetry; apply ranking_perm |].
  apply first_seen_NoDup.
Qed.

Lemma ranking_nodup_perm (s : list string) :
  Permutation (ranking s) (nodup string_dec s).
Proof.
  apply NoDup_Permutation.
  - apply ranking_NoDup.
  - apply NoDup_nodup.
  - intro t. now rewrite ranking_In, nodup_In.
Qed.

Lemma ranking_length (s : list string) :
  List.length (ranking s) = distinct_count s.
Proof. unfold distinct_count. apply Permutation_length, ranking_nodup_perm. Qed.

Lemma ranking_sorted (s : list string) :
  StronglySorted (precedes s) (ranking s).
Proof.
  unfold ranking.
  apply StronglySorted_map_in
    with (R := fun a b : string * Z =>
                 snd b < snd a
                 \/ (snd a = snd b
                     /\ (first_pos s (fst a) < first_pos s (fst b))%nat)).
  - intros [t c] [u d] Ht Hu.
    apply (Permutation_in _ (sorted_reverse_perm _ snd (counts s))) in Ht, Hu.
    unfold counts in Ht, Hu. apply in_map_iff in Ht, Hu.
    destruct Ht as [t' [Et _]], Hu as [u' [Eu _]].
    inversion Et; inversion Eu; subst. simpl. unfold precedes. tauto.
  - apply (sorted_reverse_stable _ snd (fun a => first_pos s (fst a))).
    unfold counts.
    apply StronglySorted_map_in
      with (R := fun t u => (first_pos s t < first_pos s u)%nat);
      [auto | apply first_seen_sorted].
Qed.

Lemma precedesb_spec (s : list string) (u t : string) :
  precedesb s u t = true <-> precedes s u t.
Proof.
  unfold precedesb, precedes.
  rewrite orb_true_iff, andb_true_iff, Z.ltb_lt, Z.eqb_eq, Nat.ltb_lt.
  tauto.
Qed.

Lemma precedes_irrefl (s : list string) (t : string) : ~ precedes s t t.
Proof. unfold precedes. lia. Qed.

Lemma precedes_asym (s : list string) (t u : string) :
  precedes s t u -> ~ precedes s u t.
Proof. unfold precedes. lia. Qed.

Lemma filter_all {A : Type} (f : A -> bool) (l : list A) :
  Forall (fun a => f a = true) l -> filter f l = l.
Proof.
  induction 1 as [| a l Ha _ IH]; simpl; [reflexivity |].
  now rewrite Ha, IH.
Qed.

Lemma filter_none {A : Type} (f : A -> bool) (l : list A) :
  Forall (fun a => f a = false) l -> filter f l = [].
Proof.
  induction 1 as [| a l Ha _ IH]; simpl; [reflexivity |].
  now rewrite Ha, IH.
Qed.

Lemma filter_length_perm {A : Type} (f : A -> bool) (l l' : list A) :
  Permutation l l' -> List.length (filter f l) = List.length (filter f l').
Proof.
  induction 1 as [| x l l' _ IH | x y l | l l' l'' _ IH1 _ IH2]; simpl.
  - reflexivity.
  - destruct (f x); simpl; congruence.
  - destruct (f x), (f y); reflexivity.
  - congruence.
Qed.

(** A token stands in the ranking at the place given by its rank. *)
Lemma ranking_nth (s : list string) (i : nat) (t : string) :
  nth_error (ranking s) i = Some t -> rank s t = i.
Proof.
  intro Hnth. unfold rank.
  rewrite <- (filter_length_perm _ _ _ (ranking_nodup_perm s)).
  destruct (nth_error_split _ _ Hnth) as [l1 [l2 [Hl Hlen]]].
  pose proof (ranking_sorted s) as Hs. rewrite Hl in *.
  destruct (StronglySorted_split _ _ _ _ Hs) as [H1 H2].
  rewrite filter_app. simpl.
  rewrite (filter_all _ l1), (filter_none _ l2).
  - destruct (precedesb s t t) eqn:E.
    + apply precedesb_spec in E. now apply precedes_irrefl in E.
    + simpl. rewrite length_app. simpl. lia.
  - eapply Forall_impl; [| exact H2]. intros u Hu. simpl in Hu.
    destruct (precedesb s u t) eqn:E; [| reflexivity].
    apply precedesb_spec in E. now apply precedes_asym in E.
  - eapply Forall_impl; [| exact H1]. intros u Hu.
    now apply precedesb_spec.
Qed.

Lemma rank_bound (s : list string) (t : string) :
  In t s -> (rank s t < distinct_count s)%nat.
Proof.
  intro Hin. apply ranking_In in Hin.
  destruct (In_nth_error _ _ Hin) as [i Hi].
  rewrite (ranking_nth _ _ _ Hi), <- ranking_length.
  apply nth_error_Some. congruence.
Qed.

Lemma ranking_at_rank (s : list string) (t : string) :
  In t s -> nth_error (ranking s) (rank s t) = Some t.
Proof.
  intro Hin. apply ranking_In in Hin.
  destruct (In_nth_error _ _ Hin) as [i Hi].
  now rewrite (ranking_nth _ _ _ Hi).
Qed.

(** ** Building the dictionaries *)

Lemma dict_keys_app {V : Type} (d d' : PyDict V) :
  dict_keys (d ++ d') = dict_keys d ++ dict_keys d'.
Proof. apply map_app. Qed.

(** Filling a dictionary with fresh, pairwise distinct keys appends the
    entries in order. *)
Lemma dict_fill {V P : Type} (kf : P -> string) (vf : P -> V)
  (l : list P) (d : PyDict V) :
  NoDup (dict_keys d ++ map kf l) ->
  fold_left (fun d p => dict_set d (kf p) (vf p)) l d
  = d ++ map (fun p => (kf p, vf p)) l.
Proof.
  revert d. induction l as [| x l IH]; intros d Hnd; simpl.
  - now rewrite app_nil_r.
  - simpl in Hnd. rewrite dict_set_fresh.
    + rewrite IH.
      * now rewrite <- app_assoc.
      * rewrite dict_keys_app, <- app_assoc. exact Hnd.
    + apply NoDup_remove_2 in Hnd. intro Hin. apply Hnd.
      apply in_or_app. now left.
Qed.

Lemma dict_of_items_distinct {V : Type} (items : list (string * V)) :
  NoDup (map fst items) -> dict_of_items items = items.
Proof.
  intro Hnd. unfold dict_of_items. rewrite dict_fill by exact Hnd.
  simpl. rewrite <- (map_id items) at 2. apply map_ext. now intros [k v].
Qed.

Lemma enumerate_from_combine {A : Type} (a : nat) (l : list A) :
  map (fun p => (snd p, fst p)) (enumerate_from (Z.of_nat a) l)
  = combine l (map Z.of_nat (seq a (List.length l))).
Proof.
  revert a. induction l as [| x l IH]; intro a; simpl; [reflexivity |].
  f_equal. rewrite <- IH. do 2 f_equal. lia.
Qed.

Lemma enumerate_from_snd {A : Type} (n : Z) (l : list A) :
  map snd (enumerate_from n l) = l.
Proof.
  revert n. induction l as [| x l IH]; intro n; simpl; [reflexivity |].
  now rewrite IH.
Qed.

Lemma index_dict_numbered (keys : list string) :
  NoDup keys -> index_dict (enumerate keys) = numbered keys.
Proof.
  intro Hnd. unfold index_dict, enumerate, numbered, zrange.
  rewrite dict_fill.
  - simpl. apply (enumerate_from_combine 0).
  - simpl. now rewrite enumerate_from_snd.
Qed.

Lemma numbered_keys (keys : list string) : dict_keys (numbered keys) = keys.
Proof.
  unfold numbered, zrange, dict_keys. generalize 0%nat.
  induction keys as [| x keys IH]; intro a; simpl; [reflexivity |].
  now rewrite IH.
Qed.

Lemma numbered_values (keys : list string) :
  map snd (numbered keys) = zrange (List.length keys).
Proof.
  unfold numbered, zrange. generalize 0%nat.
  induction keys as [| x keys IH]; intro a; simpl; [reflexivity |].
  now rewrite IH.
Qed.

Lemma numbered_length (keys : list string) :
  List.length (numbered keys) = List.length keys.
Proof.
  unfold numbered, zrange.
  rewrite length_combine, length_map, length_seq. lia.
Qed.

Lemma numbered_get_from (keys : list string) (a : nat) (t : string) (i : Z) :
  NoDup keys ->
  dict_get (combine keys (map Z.of_nat (seq a (List.length keys)))) t = Some i
  <-> exists j, nth_error keys j = Some t /\ i = Z.of_nat (a + j).
Proof.
  intro Hnd. revert a.
  induction Hnd as [| x keys Hx Hnd IH]; intro a; simpl.
  - split; [discriminate | intros [[| j] [H _]]; discriminate].
  - destruct (String.eqb_spec x t) as [-> | Hne].
    + split.
      * intro H. exists 0%nat. simpl. split; [reflexivity |].
        inversion H. lia.
      * intros [[| j] [Hj ->]]; [f_equal; lia |].
        simpl in Hj. apply nth_error_In in Hj. contradiction.
    + rewrite IH. split.
      * intros [j [Hj ->]]. exists (S j). split; [exact Hj | lia].
      * intros [[| j] [Hj ->]]; simpl in Hj; [congruence |].
        exists j. split; [exact Hj | lia].
Qed.

Lemma numbered_get (keys : list string) (t : string) (i : Z) :
  NoDup keys ->
  dict_get (numbered keys) t = Some i
  <-> exists j, nth_error keys j = Some t /\ i = Z.of_nat j.
Proof. intro Hnd. apply (numbered_get_from keys 0 t i Hnd). Qed.

Lemma NoDup_firstn {A : Type} (n : nat) (l : list A) :
  NoDup l -> NoDup (firstn n l).
Proof.
  intro Hnd. rewrite <- (firstn_skipn n l) in Hnd.
  now apply NoDup_app_remove_r in Hnd.
Qed.

Lemma cut_prefix {A : Type} (c : option Z) (l : list A) :
  exists n, cut c l = firstn n l.
Proof.
  destruct c as [k |]; simpl.
  - unfold slice_to. destruct (0 <=? k); eauto.
  - exists (List.length l). now rewrite firstn_all.
Qed.

Lemma cut_NoDup {A : Type} (c : option Z) (l : list A) :
  NoDup l -> NoDup (cut c l).
Proof.
  intro Hnd. destruct (cut_prefix c l) as [n ->]. now apply NoDup_firstn.
Qed.

Lemma cut_nth {A : Type} (c : option Z) (l : list A) (j : nat) (x : A) :
  nth_error (cut c l) j = Some x -> nth_error l j = Some x.
Proof.
  destruct (cut_prefix c l) as [n ->]. rewrite nth_error_firstn.
  destruct (j <? n)%nat; [auto | discriminate].
Qed.

(** ** get_token_to_index *)

Lemma sorted_vocab_keys (s : list string) :
  dict_keys (dict_of_items (sorted_reverse snd (dict_items (counts s))))
  = ranking s.
Proof.
  unfold dict_items. rewrite dict_of_items_distinct; [reflexivity |].
  apply ranking_NoDup.
Qed.

(** Each vocabulary numbers a prefix of the ranking of its side. *)
Lemma get_token_to_index_numbered (pairs : list SentencePair)
  (freq_cutoff : option Z) :
  get_token_to_index pairs freq_cutoff
  = (numbered (cut freq_cutoff (ranking (source_stream pairs))),
     numbered (cut freq_cutoff (ranking (target_stream pairs)))).
Proof.
  unfold get_token_to_index.
  change (@nil (string * Z), @nil (string * Z)) with (counts [], counts []).
  rewrite counting_loops. simpl app.
  rewrite !sorted_vocab_keys.
  destruct freq_cutoff as [k |]; simpl cut;
    rewrite !index_dict_numbered; try reflexivity;
    try apply (cut_NoDup (Some k)); apply ranking_NoDup.
Qed.

Lemma numbered_ranked (s : list string) (c : option Z) :
  ranked_by_frequency s (numbered (cut c (ranking s))).
Proof.
  pose proof (cut_NoDup c _ (ranking_NoDup s)) as Hnd.
  assert (Hord : forall t1 t2 i1 i2,
             dict_get (numbered (cut c (ranking s))) t1 = Some i1 ->
             dict_get (numbered (cut c (ranking s))) t2 = Some i2 ->
             i1 < i2 -> precedes s t1 t2).
  { intros t1 t2 i1 i2 H1 H2 Hlt.
    apply (numbered_get _ _ _ Hnd) in H1, H2.
    destruct H1 as [j1 [H1 ->]], H2 as [j2 [H2 ->]].
    apply cut_nth in H1, H2.
    apply (StronglySorted_nth _ _ j1 j2 _ _ (ranking_sorted s));
      [lia | assumption | assumption]. }
  split.
  - intros t1 t2 i1 i2 H1 H2 Hlt.
    specialize (Hord _ _ _ _ H1 H2 Hlt). unfold precedes in Hord. lia.
  - intros t t' Ht Ht'. unfold in_vocab in Ht'.
    destruct (dict_get (numbered (cut c (ranking s))) t') as [i' |] eqn:E;
      [| congruence].
    destruct (Z.eq_dec i' 0) as [-> | Hne].
    + apply (numbered_get _ _ _ Hnd) in Ht, E.
      destruct Ht as [j [Hj Ej]], E as [j' [Hj' Ej']].
      assert (j = j') by lia. subst j'. assert (t = t') by congruence.
      subst. lia.
    + assert (Hpos : 0 < i').
      { apply (numbered_get _ _ _ Hnd) in E. destruct E as [j [_ ->]]. lia. }
      specialize (Hord _ _ _ _ Ht E Hpos). unfold precedes in Hord. lia.
Qed.

(** C3. In both vocabularies of [get_token_to_index] a token with a
    smaller index is at least as frequent as one with a larger index, and
    of two equally frequent tokens the one met first in the corpus has the
    smaller index; the token at index 0 is at least as frequent as every
    retained token. *)
Theorem get_token_to_index_ranked :
  forall (pairs : list SentencePair) (freq_cutoff : option Z),
    ranked_by_frequency (source_stream pairs)
                        (fst (get_token_to_index pairs freq_cutoff))
    /\ ranked_by_frequency (target_stream pairs)
                           (snd (get_token_to_index pairs freq_cutoff)).
Proof.
  intros pairs c. rewrite get_token_to_index_numbered. simpl.
  split; apply numbered_ranked.
Qed.

Lemma get_token_to_index_ranked_witness :
  freq ["a"; "b"; "b"; "c"] "c" <= freq ["a"; "b"; "b"; "c"] "a"
  /\ (freq ["a"; "b"; "b"; "c"] "a" = freq ["a"; "b"; "b"; "c"] "c" ->
      (first_pos ["a"; "b"; "b"; "c"] "a"
       < first_pos ["a"; "b"; "b"; "c"] "c")%nat).
Proof.
  apply (proj1 (proj1 (get_token_to_index_ranked
                         [mkSentencePair ["a"; "b"] ["x"];
                          mkSentencePair ["b"; "c"] ["y"]] None))
               "a" "c" 1 2).
  - reflexivity.
  - reflexivity.
  - lia.
Defined.

Lemma numbered_keeps_top (s : list string) (k : Z) :
  0 < k -> keeps_top k s (numbered (slice_to (ranking s) k)).
Proof.
  intro Hk. unfold slice_to.
  destruct (Z.leb_spec 0 k) as [_ | Hneg]; [| lia].
  pose proof (NoDup_firstn (Z.to_nat k) _ (ranking_NoDup s)) as Hnd.
  assert (Hget : forall t i,
             dict_get (numbered (firstn (Z.to_nat k) (ranking s))) t = Some i
             <-> In t s /\ i = Z.of_nat (rank s t) /\ i < k).
  { intros t i. rewrite (numbered_get _ _ _ Hnd). split.
    - intros [j [Hj ->]]. rewrite nth_error_firstn in Hj.
      destruct (Nat.ltb_spec j (Z.to_nat k)) as [Hlt | _]; [| discriminate].
      rewrite (ranking_nth _ _ _ Hj). repeat split; [| lia].
      apply ranking_In. eapply nth_error_In; eauto.
    - intros [Hin [-> Hlt]]. exists (rank s t). split; [| reflexivity].
      rewrite nth_error_firstn.
      destruct (Nat.ltb_spec (rank s t) (Z.to_nat k)) as [_ | Hge]; [| lia].
      now apply ranking_at_rank. }
  split; [| split].
  - rewrite numbered_length, length_firstn, ranking_length. lia.
  - exact Hget.
  - intros t Hin Hge.
    destruct (dict_get (numbered (firstn (Z.to_nat k) (ranking s))) t)
      as [i |] eqn:E; [| reflexivity].
    apply Hget in E. lia.
Qed.

Lemma numbered_keeps_all (s : list string) :
  keeps_all s (numbered (ranking s)).
Proof.
  split.
  - now rewrite numbered_length, ranking_length.
  - intro t. unfold in_vocab.
    now rewrite dict_get_in_keys, numbered_keys, ranking_In.
Qed.

(** C4. With a positive cutoff [k] each vocabulary has
    [min k distinct] entries, which are the tokens of rank below [k] in
    the frequency ranking (ties by first occurrence), each mapped to its
    rank; a token of rank [k] or more has no entry. Without a cutoff every
    distinct token has an entry. *)
Theorem get_token_to_index_cutoff :
  forall (pairs : list SentencePair),
    (forall k, 0 < k ->
       keeps_top k (source_stream pairs)
                 (fst (get_token_to_index pairs (Some k)))
       /\ keeps_top k (target_stream pairs)
                    (snd (get_token_to_index pairs (Some k))))
    /\ keeps_all (source_stream pairs) (fst (get_token_to_index pairs None))
    /\ keeps_all (target_stream pairs) (snd (get_token_to_index pairs None)).
Proof.
  intro pairs. split; [intros k Hk | ];
    rewrite get_token_to_index_numbered; simpl.
  - split; now apply numbered_keeps_top.
  - split; apply numbered_keeps_all.
Qed.

Lemma get_token_to_index_cutoff_witness :
  keeps_top 2 ["a"; "b"; "b"; "c"]
            (fst (get_token_to_index
                    [mkSentencePair ["a"; "b"] ["x"];
                     mkSentencePair ["b"; "c"] ["y"]] (Some 2))).
Proof.
  apply (proj1 (get_token_to_index_cutoff
                  [mkSentencePair ["a"; "b"] ["x"];
                   mkSentencePair ["b"; "c"] ["y"]]) 2).
  lia.
Defined.

Lemma numbered_dense (keys : list string) :
  NoDup keys -> dense_index (numbered keys).
Proof.
  intro Hnd. split; [| split; [| intro i; split]].
  - now rewrite numbered_keys.
  - now rewrite numbered_values, numbered_length.
  - intros [t Ht]. apply (numbered_get _ _ _ Hnd) in Ht.
    destruct Ht as [j [Hj ->]]. rewrite numbered_length.
    assert (j < List.length keys)%nat by (apply nth_error_Some; congruence).
    lia.
  - intros [Hlo Hhi]. rewrite numbered_length in Hhi.
    destruct (nth_error keys (Z.to_nat i)) as [t |] eqn:E.
    + exists t. apply (numbered_get _ _ _ Hnd).
      exists (Z.to_nat i). split; [exact E | lia].
    + apply nth_error_None in E. lia.
Qed.

(** C6. For every cutoff (none, or any integer) both vocabularies have
    pairwise distinct keys, and their indices are [0, 1, ..., size-1],
    each taken once. *)
Theorem get_token_to_index_dense :
  forall (pairs : list SentencePair) (freq_cutoff : option Z),
    dense_index (fst (get_token_to_index pairs freq_cutoff))
    /\ dense_index (snd (get_token_to_index pairs freq_cutoff)).
Proof.
  intros pairs c. rewrite get_token_to_index_numbered. simpl.
  split; apply numbered_dense, cut_NoDup, ranking_NoDup.
Qed.

(** C10. With a cutoff of 0 [get_token_to_index] returns two empty
    vocabularies, whatever the corpus. *)
Theorem get_token_to_index_zero_cutoff :
  forall (pairs : list SentencePair),
    get_token_to_index pairs (Some 0) = ([], []).
Proof.
  intro pairs. rewrite get_token_to_index_numbered. reflexivity.
Qed.

(** ** extract_sentences: the loop over the children *)

Lemma extract_body_inv (sps : list SentencePair)
  (als : list LabeledAlignment) (token : Element)
  (st : list SentencePair * list LabeledAlignment) :
  extract_body (sps, als) token = Ok st ->
  exists sp al,
    st = (sps ++ [sp], als ++ [al])
    /\ extract_body ([], []) token = Ok ([sp], [al]).
Proof.
  unfold extract_body.
  destruct (element_getitem token 0) as [t0 | e]; simpl; [| discriminate].
  destruct (text_split t0) as [src | e]; simpl; [| discriminate].
  destruct (element_getitem token 1) as [t1 | e]; simpl; [| discriminate].
  destruct (text_split t1) as [tgt | e]; simpl; [| discriminate].
  destruct (element_getitem token 2) as [t2 | e]; simpl; [| discriminate].
  destruct (alignment_field t2) as [s | e]; simpl; [| discriminate].
  destruct (element_getitem token 3) as [t3 | e]; simpl; [| discriminate].
  destruct (alignment_field t3) as [p | e]; simpl; [| discriminate].
  intro H. inversion H. eauto.
Qed.

Lemma extract_body_frame (sps : list SentencePair)
  (als : list LabeledAlignment) (token : Element)
  (sp : SentencePair) (al : LabeledAlignment) :
  extract_body ([], []) token = Ok ([sp], [al]) ->
  extract_body (sps, als) token = Ok (sps ++ [sp], als ++ [al]).
Proof.
  unfold extract_body.
  destruct (element_getitem token 0) as [t0 | e]; simpl; [| discriminate].
  destruct (text_split t0) as [src | e]; simpl; [| discriminate].
  destruct (element_getitem token 1) as [t1 | e]; simpl; [| discriminate].
  destruct (text_split t1) as [tgt | e]; simpl; [| discriminate].
  destruct (element_getitem token 2) as [t2 | e]; simpl; [| discriminate].
  destruct (alignment_field t2) as [s | e]; simpl; [| discriminate].
  destruct (element_getitem token 3) as [t3 | e]; simpl; [| discriminate].
  destruct (alignment_field t3) as [p | e]; simpl; [| discriminate].
  intro H. inversion H. reflexivity.
Qed.

Lemma extract_loop_records (cs : list Element) :
  forall sps0 als0 sps als,
    for_each extract_body cs (sps0, als0) = Ok (sps, als) ->
    exists sps' als',
      sps = sps0 ++ sps' /\ als = als0 ++ als'
      /\ records_of_children cs sps' als'.
Proof.
  induction cs as [| c cs IH]; intros sps0 als0 sps als H;
    cbn [for_each] in H.
  - inversion H; subst. exists [], []. rewrite !app_nil_r.
    split; [reflexivity | split; [reflexivity |]].
    split; [reflexivity | split; [reflexivity |]].
    intros [| i] child Hi; discriminate.
  - destruct (extract_body (sps0, als0) c) as [st | e] eqn:E;
      cbn [bind] in H; [| discriminate].
    apply extract_body_inv in E. destruct E as [sp [al [-> Hc]]].
    apply IH in H. destruct H as [sps' [als' [-> [-> [Hl1 [Hl2 Hnth]]]]]].
    exists (sp :: sps'), (al :: als'). rewrite <- !app_assoc. simpl.
    split; [reflexivity | split; [reflexivity |]].
    split; [simpl; congruence | split; [simpl; congruence |]].
    intros [| i] child Hi; simpl in Hi.
    + inversion Hi; subst. exists sp, al. auto.
    + apply Hnth in Hi. exact Hi.
Qed.

Lemma extract_loop_total (cs : list Element) :
  (forall c, In c cs ->
             exists sp al, extract_body ([], []) c = Ok ([sp], [al])) ->
  forall sps0 als0,
  exists sps als, for_each extract_body cs (sps0, als0) = Ok (sps, als).
Proof.
  induction cs as [| c cs IH]; intros Hall sps0 als0; cbn [for_each].
  - eauto.
  - destruct (Hall c (or_introl eq_refl)) as [sp [al Hc]].
    rewrite (extract_body_frame sps0 als0 _ _ _ Hc). cbn [bind].
    apply IH. intros c' Hc'. apply Hall. now right.
Qed.

Lemma fs_read_written (fs : FileSystem) (name content : string) :
  fs_read (fs_write fs name content) name = Ok content.
Proof. unfold fs_read, fs_write. now rewrite String.eqb_refl. Qed.

Lemma extract_sentences_read (xml_parse : string -> result Element)
  (fs : FileSystem) (filename content : string) :
  fs filename = Some content ->
  snd (extract_sentences xml_parse fs filename)
  = (root <- xml_parse (replace_char "&" "&amp;" content) ;;
     extract_root root).
Proof.
  intro Hfile.
  assert (Hread : fs_read fs filename = Ok content)
    by (unfold fs_read; now rewrite Hfile).
  unfold extract_sentences. rewrite Hread. cbn [snd].
  now rewrite fs_read_written.
Qed.

Lemma extract_sentences_ok_inv (xml_parse : string -> result Element)
  (fs : FileSystem) (filename : string)
  (r : list SentencePair * list LabeledAlignment) :
  snd (extract_sentences xml_parse fs filename) = Ok r ->
  exists content root,
    fs filename = Some content
    /\ xml_parse (replace_char "&" "&amp;" content) = Ok root
    /\ extract_root root = Ok r.
Proof.
  intro H. destruct (fs filename) as [content |] eqn:Hfile.
  - rewrite (extract_sentences_read _ _ _ _ Hfile) in H.
    destruct (xml_parse (replace_char "&" "&amp;" content)) as [root |] eqn:E;
      simpl in H; [| discriminate].
    eauto.
  - unfold extract_sentences, fs_read in H. rewrite Hfile in H.
    discriminate.
Qed.

(** ** extract_sentences: texts without tokens *)

Lemma split_ws_all_space (s : string) : all_space s -> split_ws s = [].
Proof.
  unfold all_space, split_ws.
  induction s as [| c s IH]; simpl; intro Hall; [reflexivity |].
  inversion Hall as [| ? ? Hc Hs]; subst. rewrite Hc. simpl. auto.
Qed.

Lemma text_split_absent (e : Element) :
  text e = None -> text_split e = Raise AttributeError.
Proof. unfold text_split. now intros ->. Qed.

Lemma extract_body_source_absent
  (st : list SentencePair * list LabeledAlignment) (token t0 : Element) :
  element_getitem token 0 = Ok t0 -> text t0 = None ->
  extract_body st token = Raise AttributeError.
Proof.
  intros H0 Ht. unfold extract_body. destruct st as [sps als].
  rewrite H0. cbn [bind]. now rewrite (text_split_absent _ Ht).
Qed.

Lemma extract_body_target_absent
  (st : list SentencePair * list LabeledAlignment)
  (token t0 t1 : Element) (s : string) :
  element_getitem token 0 = Ok t0 -> text t0 = Some s ->
  element_getitem token 1 = Ok t1 -> text t1 = None ->
  extract_body st token = Raise AttributeError.
Proof.
  intros H0 Ht0 H1 Ht1. unfold extract_body. destruct st as [sps als].
  rewrite H0. cbn [bind]. unfold text_split at 1. rewrite Ht0. cbn [bind].
  rewrite H1. cbn [bind]. now rewrite (text_split_absent _ Ht1).
Qed.

(** C7. A child whose source or target element has no text makes the
    loop raise [AttributeError] (the guard on absent text is on the
    alignment fields only); a whitespace-only text gives the empty token
    list. *)
Theorem extract_sentences_absent_text_raises :
  extract_root
    (mkElement None
       [mkElement None
          [mkElement None []; mkElement (Some "y") [];
           mkElement None []; mkElement None []]])
  = Raise AttributeError
  /\ extract_root
       (mkElement None
          [mkElement None
             [mkElement (Some "x") []; mkElement None [];
              mkElement None []; mkElement None []]])
     = Raise AttributeError
  /\ extract_root
       (mkElement None
          [mkElement None
             [mkElement (Some "  ") []; mkElement (Some " ") [];
              mkElement None []; mkElement None []]])
     = Ok ([mkSentencePair [] []], [mkLabeledAlignment [] []]).
Proof. repeat split. Qed.

(** ** extract_sentences: the ampersands *)

Lemma replace_char_pointwise (s : string) :
  replace_char "&" "&amp;" s
  = fold_right String.append EmptyString
               (map escape_char (list_ascii_of_string s)).
Proof.
  induction s as [| c s IH]; [reflexivity |].
  cbn [replace_char list_ascii_of_string map fold_right].
  rewrite <- IH. unfold escape_char.
  destruct (Ascii.eqb c "&"); reflexivity.
Qed.

Lemma replace_char_amp_escaped (s : string) :
  amp_escaped (replace_char "&" "&amp;" s) = true.
Proof.
  induction s as [| c s IH]; [reflexivity |].
  cbn [replace_char].
  destruct (Ascii.eqb c "&") eqn:E.
  - simpl. rewrite IH. now destruct (replace_char "&" "&amp;" s).
  - cbn [amp_escaped]. now rewrite E, IH.
Qed.

(** ** extract_sentences: the alignment positions *)

Lemma list_ascii_of_append (s t : string) :
  list_ascii_of_string (String.append s t)
  = list_ascii_of_string s ++ list_ascii_of_string t.
Proof.
  induction s as [| c s IH]; simpl; [reflexivity | now rewrite IH].
Qed.

Lemma split_on_from_pieces (sep : ascii) (s cur p : string) :
  ~ In sep (list_ascii_of_string cur) ->
  In p (split_on_from sep cur s) ->
  ~ In sep (list_ascii_of_string p).
Proof.
  revert cur. induction s as [| c s IH]; intros cur Hcur Hp; simpl in Hp.
  - destruct Hp as [<- | []]. exact Hcur.
  - destruct (Ascii.eqb_spec c sep) as [-> | Hne].
    + destruct Hp as [<- | Hp]; [exact Hcur |].
      apply (IH EmptyString); [simpl; tauto | exact Hp].
    + apply (IH (snoc_char cur c)); [| exact Hp].
      unfold snoc_char. rewrite list_ascii_of_append, in_app_iff. simpl.
      intros [H | [H | []]]; [auto | congruence].
Qed.

Lemma split_on_pieces (sep : ascii) (s p : string) :
  In p (split_on sep s) -> ~ In sep (list_ascii_of_string p).
Proof. apply split_on_from_pieces. simpl. tauto. Qed.

Lemma lstrip_incl (l : list ascii) (c : ascii) : In c (lstrip l) -> In c l.
Proof.
  induction l as [| x l IH]; simpl; [tauto |].
  destruct (int_space x); simpl; tauto.
Qed.

Lemma strip_incl (l : list ascii) (c : ascii) : In c (strip l) -> In c l.
Proof.
  unfold strip. intro H.
  apply in_rev, lstrip_incl, in_rev, lstrip_incl in H. exact H.
Qed.

Lemma digit_value_nonneg (c : ascii) : 0 <= digit_value c.
Proof. unfold digit_value. lia. Qed.

Lemma parse_digits_nonneg (l : list ascii) :
  forall acc b n, 0 <= acc -> parse_digits acc b l = Some n -> 0 <= n.
Proof.
  induction l as [| c l IH]; intros acc b n Hacc H;
    cbn [parse_digits] in H.
  - destruct b; [inversion H; lia | discriminate].
  - destruct (is_digit c).
    + apply IH in H; [exact H |].
      pose proof (digit_value_nonneg c). lia.
    + destruct (Ascii.eqb c "_"); [| discriminate].
      destruct b; [| discriminate]. now apply IH in H.
Qed.

Lemma parse_signed_nonneg (l : list ascii) (n : Z) :
  ~ In "-"%char l -> parse_signed l = Some n -> 0 <= n.
Proof.
  intros Hminus H. destruct l as [| c l]; cbn [parse_signed] in H;
    [discriminate |].
  destruct (Ascii.eqb_spec c "-") as [-> | _].
  - exfalso. apply Hminus. now left.
  - destruct (Ascii.eqb c "+").
    + apply (parse_digits_nonneg l 0 false n); [lia | exact H].
    + apply (parse_digits_nonneg (c :: l) 0 false n); [lia | exact H].
Qed.

Lemma py_int_nonneg (s : string) (n : Z) :
  ~ In "-"%char (list_ascii_of_string s) -> py_int s = Ok n -> 0 <= n.
Proof.
  unfold py_int. intros Hminus H.
  destruct (parse_signed (strip (list_ascii_of_string s))) as [m |] eqn:E;
    [| discriminate].
  destruct (digit_count (strip (list_ascii_of_string s))
            <=? int_max_str_digits); [| discriminate].
  inversion H; subst.
  apply (parse_signed_nonneg _ _
           (fun Hin => Hminus (strip_incl _ _ Hin)) E).
Qed.

Lemma list_getitem_In {A : Type} (l : list A) (i : nat) (x : A) :
  list_getitem l i = Ok x -> In x l.
Proof.
  unfold list_getitem. destruct (nth_error l i) eqn:E; [| discriminate].
  intro H. inversion H; subst. eapply nth_error_In; eauto.
Qed.

Lemma alignment_pair_nonneg (s : string) (a b : Z) :
  alignment_pair s = Ok (a, b) -> 0 <= a /\ 0 <= b.
Proof.
  unfold alignment_pair.
  destruct (list_getitem (split_on "-" s) 0) as [p0 | e] eqn:E0;
    cbn [bind]; [| discriminate].
  destruct (py_int p0) as [a' | e] eqn:Ea; cbn [bind]; [| discriminate].
  destruct (list_getitem (split_on "-" s) 1) as [p1 | e] eqn:E1;
    cbn [bind]; [| discriminate].
  destruct (py_int p1) as [b' | e] eqn:Eb; cbn [bind]; [| discriminate].
  intro H. inversion H; subst.
  apply list_getitem_In in E0, E1. apply split_on_pieces in E0, E1.
  split; [apply (py_int_nonneg p0) | apply (py_int_nonneg p1)]; assumption.
Qed.

Lemma comprehension_Forall {A B : Type} (f : A -> result B) (P : B -> Prop)
  (l : list A) :
  (forall x y, f x = Ok y -> P y) ->
  forall ys, comprehension f l = Ok ys -> Forall P ys.
Proof.
  intro Hf. induction l as [| x l IH]; intros ys H; cbn [comprehension] in H.
  - inversion H. constructor.
  - destruct (f x) as [y | e] eqn:Ex; cbn [bind] in H; [| discriminate].
    destruct (comprehension f l) as [ys' | e]; cbn [bind] in H;
      [| discriminate].
    inversion H; subst. constructor; eauto.
Qed.

Lemma alignment_field_nonneg (e : Element) (ps : list (Z * Z)) :
  alignment_field e = Ok ps ->
  Forall (fun p => 0 <= fst p /\ 0 <= snd p) ps.
Proof.
  unfold alignment_field. destruct (text e) as [t |].
  - apply comprehension_Forall. intros x [a b]. apply alignment_pair_nonneg.
  - intro H. inversion H. constructor.
Qed.

Lemma extract_body_nonneg (token : Element) (sp : SentencePair)
  (al : LabeledAlignment) :
  extract_body ([], []) token = Ok ([sp], [al]) ->
  Forall (fun p => 0 <= fst p /\ 0 <= snd p) (sure al ++ possible al).
Proof.
  unfold extract_body.
  destruct (element_getitem token 0) as [t0 | e]; cbn [bind]; [| discriminate].
  destruct (text_split t0) as [src | e]; cbn [bind]; [| discriminate].
  destruct (element_getitem token 1) as [t1 | e]; cbn [bind]; [| discriminate].
  destruct (text_split t1) as [tgt | e]; cbn [bind]; [| discriminate].
  destruct (element_getitem token 2) as [t2 | e]; cbn [bind]; [| discriminate].
  destruct (alignment_field t2) as [s | e] eqn:Es; cbn [bind];
    [| discriminate].
  destruct (element_getitem token 3) as [t3 | e]; cbn [bind]; [| discriminate].
  destruct (alignment_field t3) as [p | e] eqn:Ep; cbn [bind];
    [| discriminate].
  intro H. inversion H; subst. simpl.
  apply Forall_app. split; eapply alignment_field_nonneg; eauto.
Qed.

Lemma extract_root_nonneg (root : Element) (sps : list SentencePair)
  (als : list LabeledAlignment) :
  extract_root root = Ok (sps, als) -> positions_at_least 0 als.
Proof.
  unfold extract_root. intro H. apply extract_loop_records in H.
  destruct H as [sps' [als' [-> [-> [_ [Hlen Hnth]]]]]]. simpl.
  intros al p Hal Hp. destruct (In_nth_error _ _ Hal) as [i Hi].
  assert (Hlt : (i < List.length (children root))%nat).
  { rewrite <- Hlen. apply nth_error_Some. congruence. }
  destruct (nth_error (children root) i) as [child |] eqn:Ec;
    [| apply nth_error_None in Ec; lia].
  destruct (Hnth _ _ Ec) as [sp [al' [_ [Hal' Hbody]]]].
  assert (al' = al) by congruence. subst al'.
  apply extract_body_nonneg in Hbody. rewrite Forall_forall in Hbody.
  now apply Hbody.
Qed.

(** C9, as stated, fails: the document whose only sentence has the sure
    alignment [0-3] is read without error and gives the pair [(0, 3)]. *)
Lemma extract_sentences_position_zero :
  extract_root
    (mkElement None
       [mkElement None
          [mkElement (Some "a") []; mkElement (Some "x y z") [];
           mkElement (Some "0-3") []; mkElement None []]])
  = Ok ([mkSentencePair ["a"] ["x"; "y"; "z"]],
        [mkLabeledAlignment [(0, 3)] []])
  /\ ~ positions_at_least 1 [mkLabeledAlignment [(0, 3)] []].
Proof.
  split; [reflexivity |].
  intro H.
  assert (H0 : 1 <= 0)
    by (apply (H (mkLabeledAlignment [(0, 3)] []) (0, 3)); simpl; auto).
  lia.
Qed.

(** * Further properties *)

(** ** tokenize_sents *)

Lemma index_tokens_snoc (d : PyDict Z) (pre : list string) (t : string) :
  index_tokens d (pre ++ [t]) = index_step d (index_tokens d pre) t.
Proof. unfold index_tokens. now rewrite fold_left_app. Qed.

Lemma index_tokens_last_known (d : PyDict Z) (tokens : list string) :
  negb (is_nil (index_tokens d tokens)) = last_known d tokens.
Proof.
  unfold last_known.
  induction tokens as [| t0 tokens0 _] using rev_ind; [reflexivity |].
  rewrite rev_app_distr, index_tokens_snoc. simpl. unfold index_step.
  destruct (dict_get d t0) as [i |]; [| reflexivity].
  now destruct (index_tokens d tokens0).
Qed.

Lemma both_nonempty_last_known (sd td : PyDict Z) (p : SentencePair) :
  both_nonempty sd td p
  = last_known sd (source p) && last_known td (target p).
Proof. unfold both_nonempty. now rewrite !index_tokens_last_known. Qed.

Lemma last_known_empty_dict (tokens : list string) :
  last_known [] tokens = false.
Proof. unfold last_known. now destruct (rev tokens). Qed.

(** X1. A pair is kept exactly when the last source token and the last
    target token both have an entry in their dictionary. *)
Theorem tokenize_sents_kept_by_last_token :
  forall (pairs : list SentencePair) (sd td : PyDict Z),
    tokenize_sents pairs sd td
    = map (tokenize_pair sd td)
          (filter (fun p => last_known sd (source p)
                            && last_known td (target p)) pairs).
Proof.
  intros pairs sd td. rewrite tokenize_sents_filter. f_equal.
  apply filter_ext. intro p. apply both_nonempty_last_known.
Qed.

(** X2. Sentences are tokenized independently: the result for a
    concatenated corpus is the concatenation of the results. *)
Theorem tokenize_sents_app :
  forall (pairs1 pairs2 : list SentencePair) (sd td : PyDict Z),
    tokenize_sents (pairs1 ++ pairs2) sd td
    = tokenize_sents pairs1 sd td ++ tokenize_sents pairs2 sd td.
Proof.
  intros pairs1 pairs2 sd td.
  now rewrite !tokenize_sents_filter, filter_app, map_app.
Qed.

Lemma index_tokens_values (d : PyDict Z) (tokens : list string) (i : Z) :
  In i (index_tokens d tokens) ->
  exists t, In t tokens /\ dict_get d t = Some i.
Proof.
  induction tokens as [| t tokens IH] using rev_ind; [intros [] |].
  rewrite index_tokens_snoc. unfold index_step.
  destruct (dict_get d t) as [j |] eqn:E; [| intros []].
  rewrite in_app_iff. intros [Hi | [<- | []]].
  - destruct (IH Hi) as [u [Hu Hget]]. exists u.
    rewrite in_app_iff. auto.
  - exists t. rewrite in_app_iff. simpl. auto.
Qed.

Lemma index_tokens_length (d : PyDict Z) (tokens : list string) :
  (List.length (index_tokens d tokens) <= List.length tokens)%nat.
Proof.
  induction tokens as [| t tokens IH] using rev_ind; [simpl; lia |].
  rewrite index_tokens_snoc. unfold index_step.
  destruct (dict_get d t); rewrite ?length_app; simpl; lia.
Qed.

Lemma dict_get_In {V : Type} (d : PyDict V) (k : string) (v : V) :
  dict_get d k = Some v -> In (k, v) d.
Proof.
  induction d as [| [k' v'] d IH]; simpl; [discriminate |].
  destruct (String.eqb_spec k' k) as [-> | _].
  - intro H. inversion H. now left.
  - intro H. right. now apply IH.
Qed.

Lemma index_tokens_int64 (d : PyDict Z) (tokens : list string) (i : Z) :
  int64_values d -> In i (index_tokens d tokens) ->
  - 2 ^ 63 <= i < 2 ^ 63.
Proof.
  intros Hd Hi. apply index_tokens_values in Hi.
  destruct Hi as [t [_ Hget]]. apply dict_get_In in Hget.
  unfold int64_values in Hd. rewrite Forall_forall in Hd.
  exact (Hd _ Hget).
Qed.

(** X3. When the values of both dictionaries fit 64-bit signed
    integers, every record comes from a pair of the corpus; each of its
    integers is the dictionary value of a token of that sentence and
    fits 64 bits, and no side is longer than the sentence it comes
    from. *)
Theorem tokenize_sents_values :
  forall (pairs : list SentencePair) (sd td : PyDict Z) r,
    int64_values sd -> int64_values td ->
    In r (tokenize_sents pairs sd td) ->
    exists p,
      In p pairs
      /\ (forall i, In i (source_tokens r) ->
                    - 2 ^ 63 <= i < 2 ^ 63
                    /\ exists t, In t (source p) /\ dict_get sd t = Some i)
      /\ (forall i, In i (target_tokens r) ->
                    - 2 ^ 63 <= i < 2 ^ 63
                    /\ exists t, In t (target p) /\ dict_get td t = Some i)
      /\ (List.length (source_tokens r) <= List.length (source p))%nat
      /\ (List.length (target_tokens r) <= List.length (target p))%nat.
Proof.
  intros pairs sd td r Hsd Htd Hr. rewrite tokenize_sents_filter in Hr.
  apply in_map_iff in Hr. destruct Hr as [p [<- Hp]].
  apply filter_In in Hp. destruct Hp as [Hp _]. exists p. simpl.
  split; [exact Hp |].
  split; [intros i Hi; split;
          [now apply (index_tokens_int64 sd (source p))
          | now apply index_tokens_values] |].
  split; [intros i Hi; split;
          [now apply (index_tokens_int64 td (target p))
          | now apply index_tokens_values] |].
  split; apply index_tokens_length.
Qed.

Lemma tokenize_sents_values_witness :
  exists p,
    In p [mkSentencePair ["a"; "b"; "c"] ["x"]]
    /\ (forall i, In i [1] ->
                  - 2 ^ 63 <= i < 2 ^ 63
                  /\ exists t, In t (source p)
                               /\ dict_get [("a", 0); ("c", 1)] t = Some i)
    /\ (forall i, In i [0] ->
                  - 2 ^ 63 <= i < 2 ^ 63
                  /\ exists t, In t (target p)
                               /\ dict_get [("x", 0)] t = Some i)
    /\ (List.length [1] <= List.length (source p))%nat
    /\ (List.length [0] <= List.length (target p))%nat.
Proof.
  apply (tokenize_sents_values
           [mkSentencePair ["a"; "b"; "c"] ["x"]]
           [("a", 0); ("c", 1)] [("x", 0)]
           (mkTokenizedSentencePair [1] [0])).
  - repeat constructor; simpl; lia.
  - repeat constructor; simpl; lia.
  - simpl. left. reflexivity.
Defined.

Lemma map_Some_inj {A : Type} (l l' : list A) :
  map Some l = map Some l' -> l = l'.
Proof.
  revert l'. induction l as [| x l IH]; intros [| y l'] H; simpl in H;
    try discriminate; [reflexivity |].
  inversion H. f_equal. now apply IH.
Qed.

Lemma numbered_ranking_get (s : list string) (t : string) :
  In t s -> dict_get (numbered (ranking s)) t = Some (rank_index s t).
Proof.
  intro Hin. apply (numbered_get _ _ _ (ranking_NoDup s)).
  exists (rank s t). split; [now apply ranking_at_rank | reflexivity].
Qed.

Lemma index_tokens_full_vocab (s tokens : list string) :
  incl tokens s ->
  index_tokens (numbered (ranking s)) tokens = map (rank_index s) tokens.
Proof.
  intro Hincl. apply map_Some_inj.
  rewrite index_tokens_all_known.
  - rewrite map_map. apply map_ext_in. intros t Ht.
    now apply numbered_ranking_get, Hincl.
  - apply Forall_forall. intros t Ht. unfold in_vocab.
    rewrite numbered_ranking_get by now apply Hincl. discriminate.
Qed.

Lemma source_stream_incl (pairs : list SentencePair) (p : SentencePair) :
  In p pairs -> incl (source p) (source_stream pairs).
Proof. intros Hp t Ht. apply in_flat_map. eauto. Qed.

Lemma target_stream_incl (pairs : list SentencePair) (p : SentencePair) :
  In p pairs -> incl (target p) (target_stream pairs).
Proof. intros Hp t Ht. apply in_flat_map. eauto. Qed.

(** X4. Tokenizing a corpus with the vocabularies built from it without
    cutoff keeps every pair that has a token on each side and replaces
    every token by its rank in the frequency ranking of its side. *)
Theorem tokenize_sents_own_vocabulary :
  forall (pairs : list SentencePair),
    tokenize_sents pairs (fst (get_token_to_index pairs None))
                   (snd (get_token_to_index pairs None))
    = map (fun p =>
             mkTokenizedSentencePair
               (map (rank_index (source_stream pairs)) (source p))
               (map (rank_index (target_stream pairs)) (target p)))
          (filter has_tokens pairs).
Proof.
  intro pairs. rewrite get_token_to_index_numbered. simpl.
  rewrite tokenize_sents_filter.
  assert (Hkeep : forall p, In p pairs ->
            both_nonempty (numbered (ranking (source_stream pairs)))
                          (numbered (ranking (target_stream pairs))) p
            = has_tokens p).
  { intros p Hp. unfold both_nonempty, has_tokens.
    rewrite (index_tokens_full_vocab _ _ (source_stream_incl _ _ Hp)).
    rewrite (index_tokens_full_vocab _ _ (target_stream_incl _ _ Hp)).
    now destruct (source p), (target p). }
  rewrite (filter_ext_in _ _ _ Hkeep).
  apply map_ext_in. intros p Hp. apply filter_In in Hp.
  destruct Hp as [Hp _]. unfold tokenize_pair.
  rewrite (index_tokens_full_vocab _ _ (source_stream_incl _ _ Hp)).
  now rewrite (index_tokens_full_vocab _ _ (target_stream_incl _ _ Hp)).
Qed.

Lemma numbered_value_range (keys : list string) (t : string) (i : Z) :
  NoDup keys -> dict_get (numbered keys) t = Some i ->
  0 <= i < Z.of_nat (List.length (numbered keys)).
Proof.
  intros Hnd Hget.
  apply (proj2 (proj2 (numbered_dense keys Hnd)) i). eauto.
Qed.

(** X5. Whatever corpus is tokenized with the vocabularies built by
    [get_token_to_index], every integer of every record is a valid index
    of the vocabulary of its side. *)
Theorem tokenize_sents_valid_indices :
  forall (corpus pairs : list SentencePair) (freq_cutoff : option Z) r,
    In r (tokenize_sents pairs
            (fst (get_token_to_index corpus freq_cutoff))
            (snd (get_token_to_index corpus freq_cutoff))) ->
    Forall (fun i =>
              0 <= i < Z.of_nat (List.length
                          (fst (get_token_to_index corpus freq_cutoff))))
           (source_tokens r)
    /\ Forall (fun i =>
                 0 <= i < Z.of_nat (List.length
                             (snd (get_token_to_index corpus freq_cutoff))))
              (target_tokens r).
Proof.
  intros corpus pairs c r Hr. rewrite get_token_to_index_numbered in *.
  simpl in *. rewrite tokenize_sents_filter in Hr.
  apply in_map_iff in Hr. destruct Hr as [p [<- _]]. simpl.
  split; apply Forall_forall; intros i Hi;
    apply index_tokens_values in Hi; destruct Hi as [t [_ Ht]];
    (eapply numbered_value_range; [| exact Ht]);
    apply cut_NoDup, ranking_NoDup.
Qed.

Lemma tokenize_sents_valid_indices_witness :
  Forall (fun i => 0 <= i < 2) [1; 0]
  /\ Forall (fun i => 0 <= i < 1) [0].
Proof.
  apply (tokenize_sents_valid_indices
           [mkSentencePair ["a"; "b"; "b"] ["x"]]
           [mkSentencePair ["c"; "a"; "b"] ["x"]] None
           (mkTokenizedSentencePair [1; 0] [0])).
  simpl. left. reflexivity.
Defined.

(** X6. With an empty dictionary on either side nothing is kept. *)
Theorem tokenize_sents_empty_dict :
  forall (pairs : list SentencePair) (d : PyDict Z),
    tokenize_sents pairs [] d = [] /\ tokenize_sents pairs d [] = [].
Proof.
  intros pairs d. rewrite !tokenize_sents_filter.
  split; rewrite filter_none; try reflexivity;
    apply Forall_forall; intros p _; rewrite both_nonempty_last_known,
      last_known_empty_dict; [reflexivity | apply andb_false_r].
Qed.

(** ** get_token_to_index *)

Lemma flat_map_all_nil {A B : Type} (f : A -> list B) (l : list A) :
  (forall x, In x l -> f x = []) -> flat_map f l = [].
Proof.
  induction l as [| x l IH]; intro H; simpl; [reflexivity |].
  rewrite (H x) by now left. apply IH. intros y Hy. apply H. now right.
Qed.

Lemma numbered_cut_nil (c : option Z) : numbered (cut c (ranking [])) = [].
Proof.
  destruct (cut_prefix c (ranking [])) as [n ->]. simpl.
  now rewrite firstn_nil.
Qed.

(** X7. A side on which no sentence has a token gets the empty
    vocabulary, for every cutoff. *)
Theorem get_token_to_index_no_tokens :
  forall (pairs : list SentencePair) (freq_cutoff : option Z),
    ((forall p, In p pairs -> source p = []) ->
     fst (get_token_to_index pairs freq_cutoff) = [])
    /\ ((forall p, In p pairs -> target p = []) ->
        snd (get_token_to_index pairs freq_cutoff) = []).
Proof.
  intros pairs c. rewrite get_token_to_index_numbered. simpl.
  split; intro H.
  - unfold source_stream. rewrite (flat_map_all_nil _ _ H).
    apply numbered_cut_nil.
  - unfold target_stream. rewrite (flat_map_all_nil _ _ H).
    apply numbered_cut_nil.
Qed.

Lemma get_token_to_index_no_tokens_witness :
  fst (get_token_to_index [mkSentencePair [] ["x"; "y"]] (Some 3)) = [].
Proof.
  apply (proj1 (get_token_to_index_no_tokens
                  [mkSentencePair [] ["x"; "y"]] (Some 3))).
  intros p [<- | []]. reflexivity.
Defined.

(** X8. A cutoff that is not smaller than the number of distinct tokens
    of a side changes nothing on that side. *)
Theorem get_token_to_index_large_cutoff :
  forall (pairs : list SentencePair) (k : Z),
    (Z.of_nat (distinct_count (source_stream pairs)) <= k ->
     fst (get_token_to_index pairs (Some k))
     = fst (get_token_to_index pairs None))
    /\ (Z.of_nat (distinct_count (target_stream pairs)) <= k ->
        snd (get_token_to_index pairs (Some k))
        = snd (get_token_to_index pairs None)).
Proof.
  intros pairs k. rewrite !get_token_to_index_numbered. simpl.
  unfold slice_to.
  split; intro H; (destruct (Z.leb_spec 0 k); [| lia]);
    rewrite firstn_all2; try reflexivity; rewrite ranking_length; lia.
Qed.

Lemma get_token_to_index_large_cutoff_witness :
  fst (get_token_to_index [mkSentencePair ["a"; "b"; "a"] ["x"]] (Some 2))
  = fst (get_token_to_index [mkSentencePair ["a"; "b"; "a"] ["x"]] None).
Proof.
  apply (proj1 (get_token_to_index_large_cutoff
                  [mkSentencePair ["a"; "b"; "a"] ["x"]] 2)).
  vm_compute. discriminate.
Defined.

Lemma numbered_prefix_get (s : list string) (n : nat) (t : string) (i : Z) :
  dict_get (numbered (firstn n (ranking s))) t = Some i
  <-> In t s /\ i = rank_index s t /\ (rank s t < n)%nat.
Proof.
  pose proof (NoDup_firstn n _ (ranking_NoDup s)) as Hnd.
  rewrite (numbered_get _ _ _ Hnd). unfold rank_index. split.
  - intros [j [Hj ->]]. rewrite nth_error_firstn in Hj.
    destruct (Nat.ltb_spec j n) as [Hlt | _]; [| discriminate].
    rewrite (ranking_nth _ _ _ Hj). repeat split; [| exact Hlt].
    apply ranking_In. eapply nth_error_In; eauto.
  - intros [Hin [-> Hlt]]. exists (rank s t). split; [| reflexivity].
    rewrite nth_error_firstn.
    destruct (Nat.ltb_spec (rank s t) n) as [_ | Hge]; [| lia].
    now apply ranking_at_rank.
Qed.

Lemma numbered_negative_cutoff (s : list string) (k : Z) :
  k < 0 ->
  Z.of_nat (List.length (numbered (slice_to (ranking s) k)))
  = Z.max 0 (Z.of_nat (distinct_count s) + k)
  /\ (forall t i,
        dict_get (numbered (slice_to (ranking s) k)) t = Some i
        <-> In t s /\ i = rank_index s t
            /\ i < Z.of_nat (distinct_count s) + k).
Proof.
  intro Hk. unfold slice_to. destruct (Z.leb_spec 0 k) as [| _]; [lia |].
  split.
  - rewrite numbered_length, length_firstn, ranking_length. lia.
  - intros t i. rewrite numbered_prefix_get, ranking_length.
    unfold rank_index. split; intros [Hin [-> Hlt]]; repeat split; auto; lia.
Qed.

(** X9. A negative cutoff [k] drops the [-k] last tokens of the ranking:
    the vocabulary has [max 0 (distinct + k)] entries, the tokens of rank
    below [distinct + k], each at its rank. *)
Theorem get_token_to_index_negative_cutoff :
  forall (pairs : list SentencePair) (k : Z),
    k < 0 ->
    (Z.of_nat (List.length (fst (get_token_to_index pairs (Some k))))
     = Z.max 0 (Z.of_nat (distinct_count (source_stream pairs)) + k)
     /\ (forall t i,
           dict_get (fst (get_token_to_index pairs (Some k))) t = Some i
           <-> In t (source_stream pairs)
               /\ i = rank_index (source_stream pairs) t
               /\ i < Z.of_nat (distinct_count (source_stream pairs)) + k))
    /\ (Z.of_nat (List.length (snd (get_token_to_index pairs (Some k))))
        = Z.max 0 (Z.of_nat (distinct_count (target_stream pairs)) + k)
        /\ (forall t i,
              dict_get (snd (get_token_to_index pairs (Some k))) t = Some i
              <-> In t (target_stream pairs)
                  /\ i = rank_index (target_stream pairs) t
                  /\ i < Z.of_nat (distinct_count (target_stream pairs))
                         + k)).
Proof.
  intros pairs k Hk. rewrite get_token_to_index_numbered. simpl.
  split; now apply numbered_negative_cutoff.
Qed.

Lemma get_token_to_index_negative_cutoff_witness :
  Z.of_nat (List.length
              (fst (get_token_to_index
                      [mkSentencePair ["a"; "b"; "a"; "c"] ["x"]]
                      (Some (-1)))))
  = Z.max 0 (Z.of_nat (distinct_count ["a"; "b"; "a"; "c"]) + -1).
Proof.
  apply (proj1 (get_token_to_index_negative_cutoff
                  [mkSentencePair ["a"; "b"; "a"; "c"] ["x"]] (-1)
                  ltac:(lia))).
Defined.

Lemma numbered_cut_get (s : list string) (c : option Z) (t : string)
  (i : Z) :
  dict_get (numbered (cut c (ranking s))) t = Some i ->
  dict_get (numbered (ranking s)) t = Some i /\ i = rank_index s t.
Proof.
  destruct (cut_prefix c (ranking s)) as [n ->]. intro H.
  apply numbered_prefix_get in H. destruct H as [Hin [-> _]].
  split; [now apply numbered_ranking_get | reflexivity].
Qed.

(** X10. A cutoff removes entries and never renumbers: an entry of a
    vocabulary built with any cutoff is an entry of the vocabulary built
    without cutoff, and its index is the rank of the token. *)
Theorem get_token_to_index_cutoff_restricts :
  forall (pairs : list SentencePair) (freq_cutoff : option Z) t i,
    (dict_get (fst (get_token_to_index pairs freq_cutoff)) t = Some i ->
     dict_get (fst (get_token_to_index pairs None)) t = Some i
     /\ i = rank_index (source_stream pairs) t)
    /\ (dict_get (snd (get_token_to_index pairs freq_cutoff)) t = Some i ->
        dict_get (snd (get_token_to_index pairs None)) t = Some i
        /\ i = rank_index (target_stream pairs) t).
Proof.
  intros pairs c t i. rewrite !get_token_to_index_numbered. simpl.
  split; apply numbered_cut_get.
Qed.

Lemma get_token_to_index_cutoff_restricts_witness :
  dict_get (fst (get_token_to_index
                   [mkSentencePair ["a"; "b"; "b"] ["x"]] None)) "b"
  = Some 0
  /\ 0 = rank_index (source_stream [mkSentencePair ["a"; "b"; "b"] ["x"]])
                    "b".
Proof.
  apply (proj1 (get_token_to_index_cutoff_restricts
                  [mkSentencePair ["a"; "b"; "b"] ["x"]] (Some 1) "b" 0)).
  reflexivity.
Defined.

(** X11. Each vocabulary depends on the tokens of its own side only, read
    in order; where one sentence ends and the next begins, and what the
    other side holds, does not matter. *)
Theorem get_token_to_index_by_stream :
  forall (pairs pairs' : list SentencePair) (freq_cutoff : option Z),
    (source_stream pairs = source_stream pairs' ->
     fst (get_token_to_index pairs freq_cutoff)
     = fst (get_token_to_index pairs' freq_cutoff))
    /\ (target_stream pairs = target_stream pairs' ->
        snd (get_token_to_index pairs freq_cutoff)
        = snd (get_token_to_index pairs' freq_cutoff)).
Proof.
  intros pairs pairs' c. rewrite !get_token_to_index_numbered. simpl.
  split; now intros ->.
Qed.

Lemma get_token_to_index_by_stream_witness :
  fst (get_token_to_index
         [mkSentencePair ["a"; "b"] ["x"]; mkSentencePair ["b"] []] None)
  = fst (get_token_to_index [mkSentencePair ["a"; "b"; "b"] ["y"]] None).
Proof.
  apply (proj1 (get_token_to_index_by_stream
                  [mkSentencePair ["a"; "b"] ["x"]; mkSentencePair ["b"] []]
                  [mkSentencePair ["a"; "b"; "b"] ["y"]] None)).
  reflexivity.
Defined.

Lemma swap_sides_streams (pairs : list SentencePair) :
  source_stream (map swap_sides pairs) = target_stream pairs
  /\ target_stream (map swap_sides pairs) = source_stream pairs.
Proof.
  unfold source_stream, target_stream.
  induction pairs as [| p pairs [IH1 IH2]]; simpl; [auto |].
  now rewrite IH1, IH2.
Qed.

(** X12. Both sides are treated alike: exchanging source and target in
    every sentence exchanges the two vocabularies. *)
Theorem get_token_to_index_swap :
  forall (pairs : list SentencePair) (freq_cutoff : option Z),
    get_token_to_index (map swap_sides pairs) freq_cutoff
    = (snd (get_token_to_index pairs freq_cutoff),
       fst (get_token_to_index pairs freq_cutoff)).
Proof.
  intros pairs c. rewrite !get_token_to_index_numbered. simpl.
  destruct (swap_sides_streams pairs) as [-> ->]. reflexivity.
Qed.

Lemma numbered_injective (keys : list string) (t1 t2 : string) (i : Z) :
  NoDup keys ->
  dict_get (numbered keys) t1 = Some i ->
  dict_get (numbered keys) t2 = Some i -> t1 = t2.
Proof.
  intros Hnd H1 H2. apply (numbered_get _ _ _ Hnd) in H1, H2.
  destruct H1 as [j1 [H1 E1]], H2 as [j2 [H2 E2]].
  assert (j1 = j2) by lia. subst. congruence.
Qed.

(** X13. Two tokens never share an index. *)
Theorem get_token_to_index_injective :
  forall (pairs : list SentencePair) (freq_cutoff : option Z) t1 t2 i,
    (dict_get (fst (get_token_to_index pairs freq_cutoff)) t1 = Some i ->
     dict_get (fst (get_token_to_index pairs freq_cutoff)) t2 = Some i ->
     t1 = t2)
    /\ (dict_get (snd (get_token_to_index pairs freq_cutoff)) t1 = Some i ->
        dict_get (snd (get_token_to_index pairs freq_cutoff)) t2 = Some i ->
        t1 = t2).
Proof.
  intros pairs c t1 t2 i. rewrite get_token_to_index_numbered. simpl.
  split; apply numbered_injective, cut_NoDup, ranking_NoDup.
Qed.

Lemma get_token_to_index_injective_witness : "b" = "b".
Proof.
  apply (proj1 (get_token_to_index_injective
                  [mkSentencePair ["a"; "b"; "b"] ["x"]] None "b" "b" 0));
    reflexivity.
Defined.

(** ** extract_sentences: files *)

(** X14. [extract_sentences] changes no file but [new]; when the input
    file is missing it raises [FileNotFoundError] and changes no file at
    all. *)
Theorem extract_sentences_files :
  forall (xml_parse : string -> result Element) (fs : FileSystem)
         (filename : string),
    (forall name, name <> "new" ->
                  fst (extract_sentences xml_parse fs filename) name
                  = fs name)
    /\ (fs filename = None ->
        snd (extract_sentences xml_parse fs filename)
        = Raise FileNotFoundError
        /\ forall name,
            fst (extract_sentences xml_parse fs filename) name = fs name).
Proof.
  intros xml_parse fs filename. unfold extract_sentences, fs_read.
  split.
  - intros name Hname. destruct (fs filename); [| reflexivity].
    cbn [fst]. unfold fs_write.
    apply String.eqb_neq in Hname. now rewrite Hname.
  - intros ->. split; reflexivity.
Qed.

Lemma extract_sentences_files_witness :
  fst (extract_sentences (fun _ => Raise ParseError)
                         (fun _ => Some "<r/>") "corpus.xml") "other"
  = Some "<r/>".
Proof.
  apply (proj1 (extract_sentences_files
                  (fun _ => Raise ParseError) (fun _ => Some "<r/>")
                  "corpus.xml") "other").
  discriminate.
Defined.

(** X15. Reading the file [new] itself overwrites the input: a second
    call on it parses the content escaped twice. *)
Theorem extract_sentences_on_new_twice :
  forall (xml_parse : string -> result Element) (fs : FileSystem) content,
    fs "new" = Some content ->
    snd (extract_sentences xml_parse
           (fst (extract_sentences xml_parse fs "new")) "new")
    = (root <- xml_parse (replace_char "&" "&amp;"
                            (replace_char "&" "&amp;" content)) ;;
       extract_root root).
Proof.
  intros xml_parse fs content Hfile.
  apply extract_sentences_read.
  unfold extract_sentences, fs_read. rewrite Hfile. cbn [fst].
  unfold fs_write. now rewrite String.eqb_refl.
Qed.

Lemma extract_sentences_on_new_twice_witness :
  snd (extract_sentences (fun _ => Raise ParseError)
         (fst (extract_sentences (fun _ => Raise ParseError)
                                 (fun _ => Some "a&b") "new")) "new")
  = (root <- Raise ParseError ;; extract_root root).
Proof.
  apply (extract_sentences_on_new_twice
           (fun _ => Raise ParseError) (fun _ => Some "a&b") "a&b").
  reflexivity.
Defined.

(** ** extract_sentences: the ampersands, continued *)

Lemma replace_char_cons_amp (s : string) :
  replace_char "&" "&amp;" (String "&" s)
  = String "&" (String "a" (String "m" (String "p" (String ";"
      (replace_char "&" "&amp;" s))))).
Proof. reflexivity. Qed.

Lemma replace_char_cons_other (c : ascii) (s : string) :
  c <> "&"%char ->
  replace_char "&" "&amp;" (String c s)
  = String c (replace_char "&" "&amp;" s).
Proof.
  intro Hne. cbn [replace_char].
  apply Ascii.eqb_neq in Hne. now rewrite Hne.
Qed.

Lemma replace_char_amp_cancel (s : string) :
  forall s',
    replace_char "&" "&amp;" s = replace_char "&" "&amp;" s' -> s = s'.
Proof.
  induction s as [| c s IH]; intros [| c' s'] H.
  - reflexivity.
  - destruct (ascii_dec c' "&") as [-> | Hc'].
    + rewrite replace_char_cons_amp in H. discriminate.
    + rewrite (replace_char_cons_other _ _ Hc') in H. discriminate.
  - destruct (ascii_dec c "&") as [-> | Hc].
    + rewrite replace_char_cons_amp in H. discriminate.
    + rewrite (replace_char_cons_other _ _ Hc) in H. discriminate.
  - destruct (ascii_dec c "&") as [-> | Hc];
      destruct (ascii_dec c' "&") as [-> | Hc'].
    + rewrite !replace_char_cons_amp in H. inversion H. f_equal. now apply IH.
    + rewrite replace_char_cons_amp, (replace_char_cons_other _ _ Hc') in H.
      inversion H. congruence.
    + rewrite replace_char_cons_amp, (replace_char_cons_other _ _ Hc) in H.
      inversion H. congruence.
    + rewrite (replace_char_cons_other _ _ Hc),
        (replace_char_cons_other _ _ Hc') in H.
      inversion H. f_equal. now apply IH.
Qed.

(** X16. The escaping loses nothing: two contents with the same escaped
    form are equal. *)
Theorem replace_char_amp_injective :
  forall s s' : string,
    replace_char "&" "&amp;" s = replace_char "&" "&amp;" s' -> s = s'.
Proof. intros s s'. apply replace_char_amp_cancel. Qed.

Lemma replace_char_amp_injective_witness : "AT&T" = "AT&T".
Proof.
  apply (replace_char_amp_injective "AT&T" "AT&T"). reflexivity.
Defined.

Lemma replace_char_no_amp (s : string) :
  ~ In "&"%char (list_ascii_of_string s) ->
  replace_char "&" "&amp;" s = s.
Proof.
  induction s as [| c s IH]; intro H; [reflexivity |].
  simpl in H. rewrite replace_char_cons_other by (intro E; auto).
  f_equal. apply IH. tauto.
Qed.

Lemma replace_char_length (s : string) :
  String.length (replace_char "&" "&amp;" s)
  = (String.length s
     + 4 * count_occ ascii_dec (list_ascii_of_string s) "&"%char)%nat.
Proof.
  induction s as [| c s IH]; [reflexivity |].
  destruct (ascii_dec c "&") as [-> | Hc].
  - rewrite replace_char_cons_amp.
    cbn [String.length list_ascii_of_string]. rewrite count_occ_cons_eq
      by reflexivity. rewrite IH. lia.
  - rewrite (replace_char_cons_other _ _ Hc).
    cbn [String.length list_ascii_of_string].
    rewrite count_occ_cons_neq by exact Hc. rewrite IH. lia.
Qed.

(** X17. The escaped content is four characters longer per ampersand;
    it is the content itself exactly when this has no ampersand, so
    escaping twice differs from escaping once as soon as there is
    one. *)
Theorem replace_char_amp_growth :
  forall s : string,
    String.length (replace_char "&" "&amp;" s)
    = (String.length s
       + 4 * count_occ ascii_dec (list_ascii_of_string s) "&"%char)%nat
    /\ (replace_char "&" "&amp;" s = s
        <-> ~ In "&"%char (list_ascii_of_string s))
    /\ (replace_char "&" "&amp;" (replace_char "&" "&amp;" s)
        = replace_char "&" "&amp;" s
        <-> ~ In "&"%char (list_ascii_of_string s)).
Proof.
  intro s.
  assert (Hfix : forall u, replace_char "&" "&amp;" u = u
                           <-> ~ In "&"%char (list_ascii_of_string u)).
  { intro u. split; [| apply replace_char_no_amp].
    intros Heq Hin. pose proof (replace_char_length u) as Hlen.
    rewrite Heq in Hlen.
    apply (count_occ_In ascii_dec) in Hin. lia. }
  split; [apply replace_char_length | split; [apply Hfix |]].
  split.
  - intro H. apply replace_char_amp_cancel in H. now apply Hfix.
  - intro H. f_equal. now apply Hfix.
Qed.

(** ** extract_sentences: alignment tokens *)

Lemma append_snoc_char (s t : string) (c : ascii) :
  String.append (snoc_char s c) t = String.append s (String c t).
Proof.
  unfold snoc_char. induction s as [| x s IH]; simpl; [reflexivity |].
  now rewrite IH.
Qed.

Lemma append_empty_r (s : string) : String.append s EmptyString = s.
Proof. induction s as [| x s IH]; simpl; [reflexivity | now rewrite IH]. Qed.

Lemma split_on_from_no_sep (sep : ascii) (a cur : string) :
  ~ In sep (list_ascii_of_string a) ->
  split_on_from sep cur a = [String.append cur a].
Proof.
  revert cur. induction a as [| c a IH]; intros cur Ha; simpl.
  - now rewrite append_empty_r.
  - simpl in Ha. destruct (Ascii.eqb_spec c sep) as [-> | Hne]; [tauto |].
    rewrite IH by tauto. now rewrite append_snoc_char.
Qed.

Lemma split_on_from_sep (sep : ascii) (a r cur : string) :
  ~ In sep (list_ascii_of_string a) ->
  split_on_from sep cur (String.append a (String sep r))
  = String.append cur a :: split_on_from sep EmptyString r.
Proof.
  revert cur. induction a as [| c a IH]; intros cur Ha; simpl.
  - rewrite Ascii.eqb_refl. now rewrite append_empty_r.
  - simpl in Ha. destruct (Ascii.eqb_spec c sep) as [-> | Hne]; [tauto |].
    rewrite IH by tauto. now rewrite append_snoc_char.
Qed.

Lemma py_int_error (s : string) (e : PyError) :
  py_int s = Raise e -> e = ValueError.
Proof.
  unfold py_int.
  destruct (parse_signed (strip (list_ascii_of_string s)));
    [| congruence].
  destruct (digit_count (strip (list_ascii_of_string s))
            <=? int_max_str_digits); [discriminate | congruence].
Qed.

Lemma alignment_pair_no_dash (s : string) :
  no_dash s ->
  alignment_pair s
  = match py_int s with
    | Ok _ => Raise IndexError
    | Raise _ => Raise ValueError
    end.
Proof.
  intro Hs. unfold alignment_pair, split_on.
  rewrite (split_on_from_no_sep _ _ _ Hs). simpl.
  destruct (py_int s) as [n | e] eqn:E; [reflexivity |].
  now rewrite (py_int_error _ _ E).
Qed.

(** X18. An alignment token without a dash never gives a pair: it raises
    [IndexError] when it reads as an integer and [ValueError] when it
    does not. *)
Theorem alignment_pair_without_dash :
  forall s : string,
    no_dash s ->
    (exists n, py_int s = Ok n /\ alignment_pair s = Raise IndexError)
    \/ (py_int s = Raise ValueError
        /\ alignment_pair s = Raise ValueError).
Proof.
  intros s Hs. rewrite (alignment_pair_no_dash s Hs).
  destruct (py_int s) as [n | e] eqn:E.
  - left. eauto.
  - right. now rewrite (py_int_error _ _ E).
Qed.

Lemma alignment_pair_without_dash_witness :
  (exists n, py_int "12" = Ok n /\ alignment_pair "12" = Raise IndexError)
  \/ (py_int "12" = Raise ValueError
      /\ alignment_pair "12" = Raise ValueError).
Proof.
  apply (alignment_pair_without_dash "12").
  unfold no_dash. simpl. intuition discriminate.
Defined.

Lemma alignment_pair_pieces (a b : string) (rest : list string) (s : string) :
  split_on "-" s = a :: b :: rest ->
  alignment_pair s = (x <- py_int a ;; y <- py_int b ;; Ok (x, y)).
Proof. intro H. unfold alignment_pair. rewrite H. reflexivity. Qed.

(** X19. The pair is read from the first two dash-separated pieces of
    the token; whatever follows a second dash is ignored. *)
Theorem alignment_pair_first_two_pieces :
  forall a b : string,
    no_dash a -> no_dash b ->
    alignment_pair (String.append a (String "-" b))
    = (x <- py_int a ;; y <- py_int b ;; Ok (x, y))
    /\ forall r,
        alignment_pair
          (String.append a (String "-" (String.append b (String "-" r))))
        = (x <- py_int a ;; y <- py_int b ;; Ok (x, y)).
Proof.
  intros a b Ha Hb. split; [| intro r].
  - apply (alignment_pair_pieces a b []). unfold split_on.
    rewrite (split_on_from_sep _ _ _ _ Ha).
    now rewrite (split_on_from_no_sep _ _ _ Hb).
  - apply (alignment_pair_pieces a b (split_on "-" r)). unfold split_on.
    rewrite (split_on_from_sep _ _ _ _ Ha).
    now rewrite (split_on_from_sep _ _ _ _ Hb).
Qed.

Lemma alignment_pair_first_two_pieces_witness :
  alignment_pair "1-2" = (x <- py_int "1" ;; y <- py_int "2" ;; Ok (x, y))
  /\ forall r,
      alignment_pair (String.append "1" (String "-"
                        (String.append "2" (String "-" r))))
      = (x <- py_int "1" ;; y <- py_int "2" ;; Ok (x, y)).
Proof.
  apply (alignment_pair_first_two_pieces "1" "2");
    unfold no_dash; simpl; intuition discriminate.
Defined.

(** *** Numbers written in decimal *)

Lemma decimal_digits (d : Decimal.uint) :
  Forall (fun c => is_digit c = true)
         (list_ascii_of_string (DecimalString.NilEmpty.string_of_uint d)).
Proof. induction d; simpl; constructor; auto. Qed.

Lemma is_digit_plain (c : ascii) :
  is_digit c = true ->
  isspace c = false /\ c <> "-"%char /\ c <> "+"%char.
Proof.
  unfold is_digit, isspace. intro H.
  apply andb_prop in H. destruct H as [H1 H2].
  apply Nat.leb_le in H1, H2.
  split; [| split; intros ->; vm_compute in H1; lia].
  generalize dependent (nat_of_ascii c). intros n H1 H2.
  destruct (Nat.leb_spec 9 n), (Nat.leb_spec n 13), (Nat.leb_spec 28 n),
    (Nat.leb_spec n 32), (Nat.eqb_spec n 133), (Nat.eqb_spec n 160);
    simpl; try reflexivity; lia.
Qed.

Lemma int_space_isspace (c : ascii) :
  isspace c = false -> int_space c = false.
Proof.
  unfold isspace, int_space. generalize (nat_of_ascii c). intro n.
  destruct (Nat.leb_spec 9 n), (Nat.leb_spec n 13), (Nat.leb_spec 28 n),
    (Nat.leb_spec n 32), (Nat.eqb_spec n 32), (Nat.eqb_spec n 133),
    (Nat.eqb_spec n 160); simpl; try reflexivity; try discriminate; lia.
Qed.

Lemma lstrip_plain (l : list ascii) :
  Forall (fun c => isspace c = false) l -> lstrip l = l.
Proof.
  destruct 1 as [| c l Hc _]; simpl; [reflexivity |].
  now rewrite (int_space_isspace c Hc).
Qed.

Lemma strip_plain (l : list ascii) :
  Forall (fun c => isspace c = false) l -> strip l = l.
Proof.
  intro H. unfold strip. rewrite (lstrip_plain l H).
  rewrite lstrip_plain by now apply Forall_rev.
  apply rev_involutive.
Qed.

Lemma parse_digits_uint (d : Decimal.uint) :
  forall (acc : nat) (b : bool),
    d <> Decimal.Nil \/ b = true ->
    parse_digits (Z.of_nat acc) b
      (list_ascii_of_string (DecimalString.NilEmpty.string_of_uint d))
    = Some (Z.of_nat (Nat.of_uint_acc d acc)).
Proof.
  induction d as [| d IH | d IH | d IH | d IH | d IH | d IH | d IH | d IH
                  | d IH | d IH]; intros acc b Hb;
    [ destruct Hb as [Hb | ->]; [congruence | reflexivity] | .. ];
    cbn [DecimalString.NilEmpty.string_of_uint list_ascii_of_string
         parse_digits Nat.of_uint_acc];
    change (is_digit _) with true; cbv iota;
    match goal with
    | |- context [digit_value ?c] =>
        let v := eval vm_compute in (digit_value c) in
        change (digit_value c) with v
    end;
    match goal with
    | |- parse_digits ?z true _ = Some (Z.of_nat (Nat.of_uint_acc _ ?n)) =>
        replace z with (Z.of_nat n) by (rewrite Nat.tail_mul_spec; lia)
    end;
    apply IH; now right.
Qed.

Lemma to_uint_nonnil (n : nat) : Nat.to_uint n <> Decimal.Nil.
Proof.
  intro H. pose proof (DecimalNat.Unsigned.of_to n) as Hn.
  rewrite H in Hn. simpl in Hn. subst n. discriminate.
Qed.

Lemma decimal_plain (n : nat) :
  Forall (fun c => isspace c = false) (list_ascii_of_string (decimal n))
  /\ no_dash (decimal n) /\ decimal n <> EmptyString.
Proof.
  unfold decimal, no_dash. pose proof (decimal_digits (Nat.to_uint n)) as Hd.
  repeat split.
  - eapply Forall_impl; [| exact Hd]. intros c Hc.
    now apply is_digit_plain.
  - intro Hin. rewrite Forall_forall in Hd.
    apply Hd, is_digit_plain in Hin. tauto.
  - pose proof (to_uint_nonnil n). destruct (Nat.to_uint n);
      simpl; congruence.
Qed.

Lemma list_ascii_length (s : string) :
  List.length (list_ascii_of_string s) = String.length s.
Proof. induction s as [| c s IH]; simpl; congruence. Qed.

Lemma decimal_digit_count (n : nat) :
  digit_count (list_ascii_of_string (decimal n))
  = Z.of_nat (String.length (decimal n)).
Proof.
  unfold digit_count, decimal.
  rewrite filter_all by apply decimal_digits.
  now rewrite list_ascii_length.
Qed.

Lemma py_int_decimal (n : nat) :
  readable n -> py_int (decimal n) = Ok (Z.of_nat n).
Proof.
  intro Hn. unfold py_int. rewrite strip_plain by apply decimal_plain.
  rewrite decimal_digit_count.
  destruct (Z.leb_spec (Z.of_nat (String.length (decimal n)))
                       int_max_str_digits) as [_ | Hgt];
    [| unfold readable in Hn; lia].
  pose proof (decimal_digits (Nat.to_uint n)) as Hd.
  pose proof (parse_digits_uint (Nat.to_uint n) 0 false
                (or_introl (to_uint_nonnil n))) as Hp.
  fold (Nat.of_uint (Nat.to_uint n)) in Hp.
  rewrite DecimalNat.Unsigned.of_to in Hp. unfold decimal.
  destruct (list_ascii_of_string
              (DecimalString.NilEmpty.string_of_uint (Nat.to_uint n)))
    as [| c l] eqn:El; [discriminate Hp |].
  cbn [parse_signed]. inversion Hd as [| ? ? Hc _]; subst.
  destruct (is_digit_plain c Hc) as [_ [Hm Hplus]].
  apply Ascii.eqb_neq in Hm, Hplus. rewrite Hm, Hplus.
  change (Z.of_nat 0) with 0 in Hp. now rewrite Hp.
Qed.

Lemma alignment_token_read (p : nat * nat) :
  readable_pair p ->
  alignment_pair (alignment_token p)
  = Ok (Z.of_nat (fst p), Z.of_nat (snd p)).
Proof.
  intros [H1 H2]. unfold alignment_token.
  rewrite (alignment_pair_pieces (decimal (fst p)) (decimal (snd p)) []).
  - now rewrite !py_int_decimal.
  - unfold split_on.
    rewrite split_on_from_sep by apply decimal_plain.
    now rewrite split_on_from_no_sep by apply decimal_plain.
Qed.

(** X20. Two natural numbers of at most 4300 decimal digits each,
    written in decimal with a dash in between, are read back as this
    pair. *)
Theorem alignment_pair_decimal :
  forall m n : nat,
    Z.of_nat (String.length (decimal m)) <= int_max_str_digits ->
    Z.of_nat (String.length (decimal n)) <= int_max_str_digits ->
    alignment_pair (String.append (decimal m) (String "-" (decimal n)))
    = Ok (Z.of_nat m, Z.of_nat n).
Proof.
  intros m n Hm Hn. apply (alignment_token_read (m, n)). now split.
Qed.

Lemma alignment_pair_decimal_witness :
  alignment_pair (String.append (decimal 12) (String "-" (decimal 7)))
  = Ok (Z.of_nat 12, Z.of_nat 7).
Proof.
  apply (alignment_pair_decimal 12 7); vm_compute; discriminate.
Defined.

(** ** extract_sentences: the tokens of a text *)

Lemma list_ascii_of_snoc (s : string) (c : ascii) :
  list_ascii_of_string (snoc_char s c) = list_ascii_of_string s ++ [c].
Proof. unfold snoc_char. now rewrite list_ascii_of_append. Qed.

Lemma snoc_char_nonempty (s : string) (c : ascii) :
  is_empty (snoc_char s c) = false.
Proof. now destruct s. Qed.

Lemma is_empty_false (s : string) : is_empty s = false <-> s <> EmptyString.
Proof. destruct s; simpl; split; congruence. Qed.

Lemma split_ws_from_tokens (s : string) :
  forall cur t,
    Forall (fun c => isspace c = false) (list_ascii_of_string cur) ->
    In t (split_ws_from cur s) -> is_token t.
Proof.
  induction s as [| c s IH]; intros cur t Hcur Ht; simpl in Ht.
  - destruct (is_empty cur) eqn:E; [destruct Ht |].
    destruct Ht as [<- | []]. split; [now apply is_empty_false | exact Hcur].
  - destruct (isspace c) eqn:Ec.
    + destruct (is_empty cur) eqn:E.
      * apply (IH EmptyString); [constructor | exact Ht].
      * destruct Ht as [<- | Ht].
        -- split; [now apply is_empty_false | exact Hcur].
        -- apply (IH EmptyString); [constructor | exact Ht].
    + apply (IH (snoc_char cur c)); [| exact Ht].
      rewrite list_ascii_of_snoc. apply Forall_app. split; [exact Hcur |].
      now constructor.
Qed.

Lemma split_ws_tokens (s : string) : Forall is_token (split_ws s).
Proof.
  apply Forall_forall. intros t Ht.
  apply (split_ws_from_tokens s EmptyString); [constructor | exact Ht].
Qed.

(** What a successful round of the loop has read. *)
Lemma extract_body_fields (token : Element) (sp : SentencePair)
  (al : LabeledAlignment) :
  extract_body ([], []) token = Ok ([sp], [al]) ->
  exists t0 t1 t2 t3 s0 s1,
    nth_error (children token) 0 = Some t0
    /\ nth_error (children token) 1 = Some t1
    /\ nth_error (children token) 2 = Some t2
    /\ nth_error (children token) 3 = Some t3
    /\ text t0 = Some s0 /\ text t1 = Some s1
    /\ sp = mkSentencePair (split_ws s0) (split_ws s1)
    /\ alignment_field t2 = Ok (sure al)
    /\ alignment_field t3 = Ok (possible al).
Proof.
  unfold extract_body, element_getitem, list_getitem, text_split.
  destruct (nth_error (children token) 0) as [t0 |] eqn:E0; cbn [bind];
    [| discriminate].
  destruct (text t0) as [s0 |] eqn:T0; cbn [bind]; [| discriminate].
  destruct (nth_error (children token) 1) as [t1 |] eqn:E1; cbn [bind];
    [| discriminate].
  destruct (text t1) as [s1 |] eqn:T1; cbn [bind]; [| discriminate].
  destruct (nth_error (children token) 2) as [t2 |] eqn:E2; cbn [bind];
    [| discriminate].
  destruct (alignment_field t2) as [s |] eqn:A2; cbn [bind];
    [| discriminate].
  destruct (nth_error (children token) 3) as [t3 |] eqn:E3; cbn [bind];
    [| discriminate].
  destruct (alignment_field t3) as [p |] eqn:A3; cbn [bind];
    [| discriminate].
  intro H. inversion H; subst. simpl.
  exists t0, t1, t2, t3, s0, s1. repeat split; assumption.
Qed.

Lemma records_In (cs : list Element) (sps : list SentencePair)
  (als : list LabeledAlignment) :
  records_of_children cs sps als ->
  (forall sp, In sp sps ->
     exists child al, In child cs
                      /\ extract_body ([], []) child = Ok ([sp], [al]))
  /\ (forall al, In al als ->
        exists child sp, In child cs
                         /\ extract_body ([], []) child = Ok ([sp], [al])).
Proof.
  intros [Hl1 [Hl2 Hnth]]. split.
  - intros sp Hsp. destruct (In_nth_error _ _ Hsp) as [i Hi].
    assert (Hlt : (i < List.length cs)%nat)
      by (rewrite <- Hl1; apply nth_error_Some; congruence).
    destruct (nth_error cs i) as [child |] eqn:Ec;
      [| apply nth_error_None in Ec; lia].
    destruct (Hnth _ _ Ec) as [sp' [al [Hsp' [_ Hbody]]]].
    assert (sp' = sp) by congruence. subst.
    exists child, al. split; [eapply nth_error_In; eauto | exact Hbody].
  - intros al Hal. destruct (In_nth_error _ _ Hal) as [i Hi].
    assert (Hlt : (i < List.length cs)%nat)
      by (rewrite <- Hl2; apply nth_error_Some; congruence).
    destruct (nth_error cs i) as [child |] eqn:Ec;
      [| apply nth_error_None in Ec; lia].
    destruct (Hnth _ _ Ec) as [sp [al' [_ [Hal' Hbody]]]].
    assert (al' = al) by congruence. subst.
    exists child, sp. split; [eapply nth_error_In; eauto | exact Hbody].
Qed.

Lemma extract_sentences_records (xml_parse : string -> result Element)
  (fs : FileSystem) (filename : string) (sps : list SentencePair)
  (als : list LabeledAlignment) :
  snd (extract_sentences xml_parse fs filename) = Ok (sps, als) ->
  exists root, records_of_children (children root) sps als.
Proof.
  intro H. apply extract_sentences_ok_inv in H.
  destruct H as [content [root [_ [_ Hroot]]]].
  apply extract_loop_records in Hroot.
  destruct Hroot as [sps' [als' [-> [-> Hrec]]]]. eauto.
Qed.

(** X21. Every token of every sentence pair returned by
    [extract_sentences] is non-empty and free of whitespace. *)
Theorem extract_sentences_tokens :
  forall (xml_parse : string -> result Element) (fs : FileSystem)
         (filename : string) sps als,
    snd (extract_sentences xml_parse fs filename) = Ok (sps, als) ->
    forall sp, In sp sps ->
               Forall is_token (source sp) /\ Forall is_token (target sp).
Proof.
  intros xml_parse fs filename sps als H sp Hsp.
  apply extract_sentences_records in H. destruct H as [root Hrec].
  destruct (proj1 (records_In _ _ _ Hrec) sp Hsp) as [child [al [_ Hbody]]].
  apply extract_body_fields in Hbody.
  destruct Hbody as [t0 [t1 [t2 [t3 [s0 [s1 H]]]]]].
  destruct H as [_ [_ [_ [_ [_ [_ [-> _]]]]]]]. simpl.
  split; apply split_ws_tokens.
Qed.

Lemma extract_sentences_tokens_witness :
  Forall is_token (source (mkSentencePair ["a"; "b"] ["x"]))
  /\ Forall is_token (target (mkSentencePair ["a"; "b"] ["x"])).
Proof.
  apply (extract_sentences_tokens
           (fun _ => Ok (mkElement None
              [mkElement None
                 [mkElement (Some " a  b ") []; mkElement (Some "x") [];
                  mkElement None []; mkElement None []]]))
           (fun _ => Some "corpus") "corpus.xml"
           [mkSentencePair ["a"; "b"] ["x"]]
           [mkLabeledAlignment [] []]).
  - reflexivity.
  - simpl. left. reflexivity.
Defined.

Lemma comprehension_length {A B : Type} (f : A -> result B) (l : list A) :
  forall ys, comprehension f l = Ok ys -> List.length ys = List.length l.
Proof.
  induction l as [| x l IH]; intros ys H; cbn [comprehension] in H.
  - inversion H. reflexivity.
  - destruct (f x) as [y | e]; cbn [bind] in H; [| discriminate].
    destruct (comprehension f l) as [ys' | e]; cbn [bind] in H;
      [| discriminate].
    inversion H; subst. simpl. f_equal. now apply IH.
Qed.

Lemma alignment_field_size (e : Element) (ps : list (Z * Z)) :
  alignment_field e = Ok ps -> List.length ps = field_size e.
Proof.
  unfold alignment_field, field_size. destruct (text e) as [t |].
  - apply comprehension_length.
  - intro H. inversion H. reflexivity.
Qed.

(** ** extract_sentences: reading back a written document *)

Lemma split_ws_from_word (w rest cur : string) :
  Forall (fun c => isspace c = false) (list_ascii_of_string w) ->
  split_ws_from cur (String.append w rest)
  = split_ws_from (String.append cur w) rest.
Proof.
  revert cur. induction w as [| c w IH]; intros cur Hw; simpl.
  - now rewrite append_empty_r.
  - simpl in Hw. inversion Hw as [| ? ? Hc Hw']; subst. rewrite Hc.
    rewrite (IH _ Hw'). now rewrite append_snoc_char.
Qed.

Lemma split_ws_join (tokens : list string) :
  Forall is_token tokens -> split_ws (join_space tokens) = tokens.
Proof.
  unfold split_ws.
  induction tokens as [| t rest IH]; intro Hall; [reflexivity |].
  inversion Hall as [| ? ? [Hne Hplain] Hrest]; subst.
  apply is_empty_false in Hne.
  destruct rest as [| r rest].
  - cbn [join_space]. rewrite <- (append_empty_r t) at 1.
    rewrite (split_ws_from_word _ _ _ Hplain). simpl. now rewrite Hne.
  - change (join_space (t :: r :: rest))
      with (String.append t (String " " (join_space (r :: rest)))).
    rewrite (split_ws_from_word _ _ _ Hplain).
    cbn [String.append split_ws_from].
    change (isspace " ") with true. cbv iota. rewrite Hne.
    now rewrite (IH Hrest).
Qed.

Lemma join_space_nonempty (tokens : list string) :
  Forall is_token tokens -> tokens <> [] ->
  is_empty (join_space tokens) = false.
Proof.
  intros Hall Hne. destruct tokens as [| t rest]; [congruence |].
  inversion Hall as [| ? ? [Ht _] _]; subst.
  destruct rest; cbn [join_space]; destruct t; simpl; congruence.
Qed.

Lemma text_split_written (tokens : list string) :
  Forall is_token tokens -> tokens <> [] ->
  text_split (element_with (join_space tokens)) = Ok tokens.
Proof.
  intros Hall Hne. unfold text_split, element_with.
  rewrite (join_space_nonempty _ Hall Hne). simpl.
  now rewrite (split_ws_join _ Hall).
Qed.

Lemma alignment_token_is_token (p : nat * nat) :
  is_token (alignment_token p).
Proof.
  unfold alignment_token.
  destruct (decimal_plain (fst p)) as [H1 [_ Hne]].
  destruct (decimal_plain (snd p)) as [H2 _].
  split.
  - destruct (decimal (fst p)); simpl; congruence.
  - rewrite list_ascii_of_append. apply Forall_app. split; [exact H1 |].
    simpl. constructor; [reflexivity | exact H2].
Qed.

Lemma alignment_tokens_read (ps : list (nat * nat)) :
  Forall readable_pair ps ->
  comprehension alignment_pair (map alignment_token ps)
  = Ok (positions_of ps).
Proof.
  induction 1 as [| p ps Hp _ IH]; [reflexivity |].
  cbn [map comprehension positions_of].
  rewrite (alignment_token_read p Hp). cbn [bind]. rewrite IH. reflexivity.
Qed.

Lemma alignment_field_written (ps : list (nat * nat)) :
  Forall readable_pair ps ->
  alignment_field (element_with (alignment_text ps)) = Ok (positions_of ps).
Proof.
  intro Hread.
  assert (Hall : Forall is_token (map alignment_token ps)).
  { apply Forall_forall. intros t Ht. apply in_map_iff in Ht.
    destruct Ht as [p [<- _]]. apply alignment_token_is_token. }
  unfold alignment_field, element_with, alignment_text.
  destruct ps as [| p ps]; [reflexivity |].
  rewrite (join_space_nonempty _ Hall) by discriminate.
  cbn [text]. rewrite (split_ws_join _ Hall).
  now apply alignment_tokens_read.
Qed.

Lemma extract_body_written (e : Entry) (sps : list SentencePair)
  (als : list LabeledAlignment) :
  entry_ok e ->
  extract_body (sps, als) (entry_element e)
  = Ok (sps ++ [entry_pair e], als ++ [entry_alignment e]).
Proof.
  intros [Hs [Ht [Hsrc [Htgt [Hsure Hposs]]]]].
  unfold extract_body, entry_element, element_getitem, list_getitem.
  cbn [children nth_error bind].
  rewrite (text_split_written _ Hsrc Hs). cbn [bind].
  rewrite (text_split_written _ Htgt Ht). cbn [bind].
  rewrite (alignment_field_written _ Hsure). cbn [bind].
  rewrite (alignment_field_written _ Hposs). reflexivity.
Qed.

Lemma extract_loop_written (es : list Entry) :
  Forall entry_ok es ->
  forall sps als,
    for_each extract_body (map entry_element es) (sps, als)
    = Ok (sps ++ map entry_pair es, als ++ map entry_alignment es).
Proof.
  induction 1 as [| e es He _ IH]; intros sps als; cbn [map for_each].
  - now rewrite !app_nil_r.
  - rewrite (extract_body_written e sps als He). cbn [bind].
    rewrite IH, <- !app_assoc. reflexivity.
Qed.

(** X23. A document written from records is read back as these records:
    when every sentence has at least one token on each side, tokens are
    non-empty without whitespace and no position has more than 4300
    decimal digits, tokens joined by single spaces and alignments
    written as decimal pairs [m-n] come back as the same sentence pairs
    and alignments, in the same order. *)
Theorem extract_root_reads_back :
  forall (es : list Entry),
    Forall entry_ok es ->
    extract_root (mkElement None (map entry_element es))
    = Ok (map entry_pair es, map entry_alignment es).
Proof.
  intros es Hall. unfold extract_root. cbn [children].
  now rewrite (extract_loop_written es Hall).
Qed.

Lemma extract_root_reads_back_witness :
  extract_root
    (mkElement None
       (map entry_element [mkEntry ["a"; "b"] ["x"] [(1%nat, 1%nat); (2%nat, 1%nat)] []]))
  = Ok (map entry_pair [mkEntry ["a"; "b"] ["x"] [(1%nat, 1%nat); (2%nat, 1%nat)] []],
        map entry_alignment
            [mkEntry ["a"; "b"] ["x"] [(1%nat, 1%nat); (2%nat, 1%nat)] []]).
Proof.
  apply (extract_root_reads_back
           [mkEntry ["a"; "b"] ["x"] [(1%nat, 1%nat); (2%nat, 1%nat)] []]).
  repeat constructor; simpl; try discriminate;
    unfold readable; vm_compute; discriminate.
Defined.

(** ** extract_sentences: failures *)

Lemma extract_body_raise_frame (token : Element) (e : PyError)
  (sps : list SentencePair) (als : list LabeledAlignment) :
  extract_body ([], []) token = Raise e ->
  extract_body (sps, als) token = Raise e.
Proof.
  unfold extract_body.
  destruct (element_getitem token 0) as [t0 | e0]; cbn [bind]; [| auto].
  destruct (text_split t0) as [src | e0]; cbn [bind]; [| auto].
  destruct (element_getitem token 1) as [t1 | e0]; cbn [bind]; [| auto].
  destruct (text_split t1) as [tgt | e0]; cbn [bind]; [| auto].
  destruct (element_getitem token 2) as [t2 | e0]; cbn [bind]; [| auto].
  destruct (alignment_field t2) as [s | e0]; cbn [bind]; [| auto].
  destruct (element_getitem token 3) as [t3 | e0]; cbn [bind]; [| auto].
  destruct (alignment_field t3) as [p | e0]; cbn [bind]; [| auto].
  discriminate.
Qed.

Lemma extract_loop_first_failure (pre post : list Element) (c : Element)
  (e : PyError) :
  (forall c', In c' pre ->
     exists sp al, extract_body ([], []) c' = Ok ([sp], [al])) ->
  extract_body ([], []) c = Raise e ->
  forall sps als,
    for_each extract_body (pre ++ c :: post) (sps, als) = Raise e.
Proof.
  intros Hpre Hc. induction pre as [| c' pre IH]; intros sps als;
    cbn [app for_each].
  - now rewrite (extract_body_raise_frame _ _ sps als Hc).
  - destruct (Hpre c' (or_introl eq_refl)) as [sp [al Hc']].
    rewrite (extract_body_frame sps als _ _ _ Hc'). cbn [bind].
    apply IH. intros c'' Hc''. apply Hpre. now right.
Qed.

(** X24. No partial corpus: when the loop body fails on a sentence
    element and succeeds on all those before it, [extract_sentences]
    raises the exception of that element, whatever follows. *)
Theorem extract_sentences_first_failure :
  forall (xml_parse : string -> result Element) (fs : FileSystem)
         (filename content : string) (root : Element)
         (pre post : list Element) (c : Element) (e : PyError),
    fs filename = Some content ->
    xml_parse (replace_char "&" "&amp;" content) = Ok root ->
    children root = pre ++ c :: post ->
    (forall c', In c' pre ->
       exists sp al, extract_body ([], []) c' = Ok ([sp], [al])) ->
    extract_body ([], []) c = Raise e ->
    snd (extract_sentences xml_parse fs filename) = Raise e.
Proof.
  intros xml_parse fs filename content root pre post c e
         Hfile Hparse Hchildren Hpre Hc.
  rewrite (extract_sentences_read _ _ _ _ Hfile), Hparse. cbn [bind].
  unfold extract_root. rewrite Hchildren.
  now apply extract_loop_first_failure.
Qed.

Lemma extract_sentences_first_failure_witness :
  snd (extract_sentences
         (fun _ => Ok (mkElement None
            [mkElement None
               [mkElement (Some "a") []; mkElement (Some "x") [];
                mkElement None []; mkElement None []];
             mkElement None
               [mkElement (Some "b") []; mkElement (Some "y") [];
                mkElement (Some "1+1") []; mkElement None []];
             mkElement None []]))
         (fun _ => Some "corpus") "corpus.xml")
  = Raise ValueError.
Proof.
  apply (extract_sentences_first_failure
           (fun _ => Ok (mkElement None
              [mkElement None
                 [mkElement (Some "a") []; mkElement (Some "x") [];
                  mkElement None []; mkElement None []];
               mkElement None
                 [mkElement (Some "b") []; mkElement (Some "y") [];
                  mkElement (Some "1+1") []; mkElement None []];
               mkElement None []]))
           (fun _ => Some "corpus") "corpus.xml" "corpus"
           (mkElement None
              [mkElement None
                 [mkElement (Some "a") []; mkElement (Some "x") [];
                  mkElement None []; mkElement None []];
               mkElement None
                 [mkElement (Some "b") []; mkElement (Some "y") [];
                  mkElement (Some "1+1") []; mkElement None []];
               mkElement None []])
           [mkElement None
              [mkElement (Some "a") []; mkElement (Some "x") [];
               mkElement None []; mkElement None []]]
           [mkElement None []]
           (mkElement None
              [mkElement (Some "b") []; mkElement (Some "y") [];
               mkElement (Some "1+1") []; mkElement None []])
           ValueError).
  - reflexivity.
  - reflexivity.
  - reflexivity.
  - intros c' [<- | []].
    exists (mkSentencePair ["a"] ["x"]), (mkLabeledAlignment [] []).
    reflexivity.
  - reflexivity.
Defined.

(** X25. A sentence element is read by position only: the loop body
    sees the texts of its first four sub-elements and nothing else (not
    its own text, not further sub-elements, not what the sub-elements
    contain); with fewer than four sub-elements it raises. *)
Theorem extract_body_by_position :
  forall (st : list SentencePair * list LabeledAlignment),
    (forall own t0 t1 t2 t3 rest,
        extract_body st (mkElement own (t0 :: t1 :: t2 :: t3 :: rest))
        = extract_body st (four_texts t0 t1 t2 t3))
    /\ (forall token,
          (List.length (children token) < 4)%nat ->
          exists e, extract_body st token = Raise e).
Proof.
  intros [sps als]. split.
  - intros own t0 t1 t2 t3 rest. reflexivity.
  - intros token Hlen.
    unfold extract_body, element_getitem, list_getitem.
    destruct (children token) as [| t0 [| t1 [| t2 [| t3 rest]]]];
      cbn [nth_error bind]; simpl in Hlen; try lia; eauto;
      destruct (text_split t0); cbn [bind]; eauto;
      destruct (text_split t1); cbn [bind]; eauto;
      destruct (alignment_field t2); cbn [bind]; eauto.
Qed.

Lemma extract_body_by_position_witness :
  exists e,
    extract_body ([], [])
      (mkElement None [mkElement (Some "a") []; mkElement (Some "x") []])
    = Raise e.
Proof.
  apply (proj2 (extract_body_by_position ([], []))
               (mkElement None
                  [mkElement (Some "a") []; mkElement (Some "x") []])).
  simpl. lia.
Defined.

(** ** The two stages together *)

Lemma last_known_top (s tokens : list string) (k : Z) :
  0 < k -> incl tokens s ->
  last_known (numbered (slice_to (ranking s) k)) tokens
  = last_in_top k s tokens.
Proof.
  intros Hk Hincl. unfold last_known, last_in_top, slice_to.
  destruct (Z.leb_spec 0 k) as [_ |]; [| lia].
  destruct (rev tokens) as [| t l] eqn:E; [reflexivity |].
  assert (Hin : In t s).
  { apply Hincl, in_rev. rewrite E. now left. }
  destruct (dict_get (numbered (firstn (Z.to_nat k) (ranking s))) t)
    as [i |] eqn:Eg.
  - apply numbered_prefix_get in Eg. destruct Eg as [_ [_ Hlt]].
    symmetry. apply Z.ltb_lt. lia.
  - destruct (Z.ltb_spec (Z.of_nat (rank s t)) k) as [Hlt | _];
      [| reflexivity].
    assert (Hget : dict_get (numbered (firstn (Z.to_nat k) (ranking s))) t
                   = Some (rank_index s t)).
    { apply numbered_prefix_get. repeat split; [exact Hin | lia]. }
    congruence.
Qed.

(** X26. Tokenizing a corpus with the vocabularies built from it with a
    positive cutoff [k] keeps exactly the pairs whose last source token
    and last target token are among the [k] first tokens of the ranking
    of their side. *)
Theorem tokenize_sents_own_cutoff_vocabulary :
  forall (pairs : list SentencePair) (k : Z),
    0 < k ->
    tokenize_sents pairs (fst (get_token_to_index pairs (Some k)))
                   (snd (get_token_to_index pairs (Some k)))
    = map (tokenize_pair (fst (get_token_to_index pairs (Some k)))
                         (snd (get_token_to_index pairs (Some k))))
          (filter (fun p =>
                     last_in_top k (source_stream pairs) (source p)
                     && last_in_top k (target_stream pairs) (target p))
                  pairs).
Proof.
  intros pairs k Hk. rewrite tokenize_sents_filter. f_equal.
  apply filter_ext_in. intros p Hp.
  rewrite both_nonempty_last_known, get_token_to_index_numbered. simpl.
  rewrite (last_known_top _ _ _ Hk (source_stream_incl _ _ Hp)).
  now rewrite (last_known_top _ _ _ Hk (target_stream_incl _ _ Hp)).
Qed.

Lemma tokenize_sents_own_cutoff_vocabulary_witness :
  tokenize_sents [mkSentencePair ["a"; "b"; "b"] ["x"];
                  mkSentencePair ["b"; "a"] ["x"]]
    (fst (get_token_to_index [mkSentencePair ["a"; "b"; "b"] ["x"];
                              mkSentencePair ["b"; "a"] ["x"]] (Some 1)))
    (snd (get_token_to_index [mkSentencePair ["a"; "b"; "b"] ["x"];
                              mkSentencePair ["b"; "a"] ["x"]] (Some 1)))
  = [mkTokenizedSentencePair [0; 0] [0]].
Proof.
  rewrite (tokenize_sents_own_cutoff_vocabulary
             [mkSentencePair ["a"; "b"; "b"] ["x"];
              mkSentencePair ["b"; "a"] ["x"]] 1 ltac:(lia)).
  reflexivity.
Defined.

(** ** extract_sentences: the records of a document *)

Lemma comprehension_Forall2 {A B : Type} (f : A -> result B) (l : list A)
  (ys : list B) :
  comprehension f l = Ok ys <-> Forall2 (fun x y => f x = Ok y) l ys.
Proof.
  revert ys. induction l as [| x l IH]; intro ys; cbn [comprehension].
  - split; intro H; [inversion H; constructor | inversion H; reflexivity].
  - split.
    + destruct (f x) as [y | e] eqn:Ex; cbn [bind]; [| discriminate].
      destruct (comprehension f l) as [ys' | e]; cbn [bind];
        [| discriminate].
      intro H. inversion H; subst. constructor; [exact Ex |].
      now apply IH.
    + intro H. inversion H as [| ? y ? ys' Hx Hrest]; subst.
      rewrite Hx. cbn [bind]. apply IH in Hrest. rewrite Hrest.
      reflexivity.
Qed.

Lemma alignment_pair_reads (tok : string) (p : Z * Z) :
  alignment_pair tok = Ok p <-> reads_as tok p.
Proof.
  unfold alignment_pair, reads_as, list_getitem. split.
  - destruct (split_on "-" tok) as [| a [| b rest]]; cbn [nth_error bind];
      try discriminate.
    + destruct (py_int a); cbn [bind]; discriminate.
    + destruct (py_int a) as [x |] eqn:Ea; cbn [bind]; [| discriminate].
      destruct (py_int b) as [y |] eqn:Eb; cbn [bind]; [| discriminate].
      intro H. inversion H; subst. exists a, b, rest. auto.
  - intros [a [b [rest [-> [Ha Hb]]]]]. cbn [nth_error bind].
    rewrite Ha. cbn [bind]. rewrite Hb. cbn [bind]. now destruct p.
Qed.

Lemma alignment_field_reads (e : Element) (ps : list (Z * Z)) :
  alignment_field e = Ok ps <-> Forall2 reads_as (field_tokens e) ps.
Proof.
  unfold alignment_field, field_tokens. destruct (text e) as [t |].
  - rewrite comprehension_Forall2. split; intro H;
      (eapply Forall2_impl; [| exact H]); intros tok p;
      apply alignment_pair_reads.
  - split; intro H; [inversion H; constructor | inversion H; reflexivity].
Qed.

(** The loop body builds exactly the records of the sentence element. *)
Lemma extract_body_built (child : Element) (sp : SentencePair)
  (al : LabeledAlignment) :
  extract_body ([], []) child = Ok ([sp], [al]) <-> built_from child sp al.
Proof.
  split.
  - intro H. apply extract_body_fields in H.
    destruct H as [t0 [t1 [t2 [t3 [s0 [s1 H]]]]]].
    destruct H as [H0 [H1 [H2 [H3 [T0 [T1 [-> [A2 A3]]]]]]]].
    exists t0, t1, t2, t3, s0, s1.
    repeat (split; [assumption || reflexivity |]).
    split; now apply alignment_field_reads.
  - intros [t0 [t1 [t2 [t3 [s0 [s1 H]]]]]].
    destruct H as [H0 [H1 [H2 [H3 [T0 [T1 [Hs [Ht [A2 A3]]]]]]]]].
    apply alignment_field_reads in A2, A3.
    unfold extract_body, element_getitem, list_getitem, text_split.
    rewrite H0. cbn [bind]. rewrite T0. cbn [bind].
    rewrite H1. cbn [bind]. rewrite T1. cbn [bind].
    rewrite H2. cbn [bind]. rewrite A2. cbn [bind].
    rewrite H3. cbn [bind]. rewrite A3. cbn [bind].
    destruct sp as [src tgt], al as [su po]. simpl in *. now subst.
Qed.

Lemma records_aligned (cs : list Element) (sps : list SentencePair)
  (als : list LabeledAlignment) :
  records_of_children cs sps als -> aligned_with_children cs sps als.
Proof.
  intros [H1 [H2 Hnth]]. split; [exact H1 | split; [exact H2 |]].
  intros i child Hi. destruct (Hnth i child Hi) as [sp [al [Hs [Ha Hb]]]].
  exists sp, al. split; [exact Hs | split; [exact Ha |]].
  now apply extract_body_built.
Qed.

(** C2. When [extract_sentences] returns, its two lists are as long as
    the list of children of the root, and at every index they hold the
    sentence pair and the alignment of the child at that index: the
    tokens of its sub-elements 0 and 1, and the pairs that the tokens of
    its sub-elements 2 and 3 say. It returns whenever the file is there,
    the document parses and every child has such records. *)
Theorem extract_sentences_index_aligned :
  forall (xml_parse : string -> result Element) (fs : FileSystem)
         (filename : string),
    (forall sps als,
        snd (extract_sentences xml_parse fs filename) = Ok (sps, als) ->
        List.length sps = List.length als
        /\ exists content root,
            fs filename = Some content
            /\ xml_parse (replace_char "&" "&amp;" content) = Ok root
            /\ aligned_with_children (children root) sps als)
    /\ (forall content root,
        fs filename = Some content ->
        xml_parse (replace_char "&" "&amp;" content) = Ok root ->
        (forall c, In c (children root) ->
           exists sp al, built_from c sp al) ->
        exists sps als,
          snd (extract_sentences xml_parse fs filename) = Ok (sps, als)).
Proof.
  intros xml_parse fs filename. split.
  - intros sps als H. apply extract_sentences_ok_inv in H.
    destruct H as [content [root [Hfile [Hparse Hroot]]]].
    apply extract_loop_records in Hroot.
    destruct Hroot as [sps' [als' [-> [-> Hrec]]]]. simpl.
    split; [destruct Hrec as [H1 [H2 _]]; congruence |].
    exists content, root. split; [exact Hfile | split; [exact Hparse |]].
    now apply records_aligned.
  - intros content root Hfile Hparse Hall.
    rewrite (extract_sentences_read _ _ _ _ Hfile), Hparse. simpl.
    apply extract_loop_total. intros c Hc.
    destruct (Hall c Hc) as [sp [al Hb]]. exists sp, al.
    now apply extract_body_built.
Qed.

Lemma extract_sentences_index_aligned_witness :
  List.length [mkSentencePair ["a"; "b"] ["x"]; mkSentencePair ["c"] ["y"]]
  = List.length [mkLabeledAlignment [(1, 1)] [(2, 1)];
                 mkLabeledAlignment [] []]
  /\ exists content root,
      (fun _ : string => Some "corpus") "corpus.xml" = Some content
      /\ (fun _ : string =>
            Ok (mkElement None
                  [mkElement None
                     [mkElement (Some "a b") []; mkElement (Some "x") [];
                      mkElement (Some "1-1") []; mkElement (Some "2-1") []];
                   mkElement None
                     [mkElement (Some "c") []; mkElement (Some "y") [];
                      mkElement None []; mkElement None []]]))
           (replace_char "&" "&amp;" content) = Ok root
      /\ aligned_with_children (children root)
           [mkSentencePair ["a"; "b"] ["x"]; mkSentencePair ["c"] ["y"]]
           [mkLabeledAlignment [(1, 1)] [(2, 1)];
            mkLabeledAlignment [] []].
Proof.
  apply (proj1 (extract_sentences_index_aligned
                  (fun _ => Ok (mkElement None
                     [mkElement None
                        [mkElement (Some "a b") []; mkElement (Some "x") [];
                         mkElement (Some "1-1") [];
                         mkElement (Some "2-1") []];
                      mkElement None
                        [mkElement (Some "c") []; mkElement (Some "y") [];
                         mkElement None []; mkElement None []]]))
                  (fun _ => Some "corpus") "corpus.xml")
               [mkSentencePair ["a"; "b"] ["x"]; mkSentencePair ["c"] ["y"]]
               [mkLabeledAlignment [(1, 1)] [(2, 1)];
                mkLabeledAlignment [] []]).
  reflexivity.
Defined.

Lemma extract_sentences_alignments (xml_parse : string -> result Element)
  (fs : FileSystem) (filename : string) (sps : list SentencePair)
  (als : list LabeledAlignment) :
  snd (extract_sentences xml_parse fs filename) = Ok (sps, als) ->
  exists content root,
    fs filename = Some content
    /\ xml_parse (replace_char "&" "&amp;" content) = Ok root
    /\ extract_root root = Ok (sps, als)
    /\ forall i al,
        nth_error als i = Some al ->
        exists child sp,
          nth_error (children root) i = Some child
          /\ extract_body ([], []) child = Ok ([sp], [al]).
Proof.
  intro H. apply extract_sentences_ok_inv in H.
  destruct H as [content [root [Hfile [Hparse Hroot]]]].
  exists content, root.
  split; [exact Hfile | split; [exact Hparse | split; [exact Hroot |]]].
  apply extract_loop_records in Hroot.
  destruct Hroot as [sps' [als' [-> [-> [_ [Hlen Hnth]]]]]]. simpl.
  intros i al Hi.
  assert (Hlt : (i < List.length (children root))%nat)
    by (rewrite <- Hlen; apply nth_error_Some; congruence).
  destruct (nth_error (children root) i) as [child |] eqn:Ec;
    [| apply nth_error_None in Ec; lia].
  destruct (Hnth i child Ec) as [sp [al' [_ [Hal' Hbody]]]].
  assert (al' = al) by congruence. subst. eauto.
Qed.

(** C9, amended. Every alignment returned by [extract_sentences] holds,
    in order, one pair per whitespace-separated token of sub-elements 2
    and 3 of the sentence element of the same index; each pair is what
    its token says, the integers of its first two dash-separated pieces,
    taken as they are; both positions are at least 0. *)
Theorem extract_sentences_positions_verbatim :
  forall (xml_parse : string -> result Element) (fs : FileSystem)
         (filename : string) sps als,
    snd (extract_sentences xml_parse fs filename) = Ok (sps, als) ->
    positions_at_least 0 als
    /\ exists content root,
        fs filename = Some content
        /\ xml_parse (replace_char "&" "&amp;" content) = Ok root
        /\ positions_verbatim root als.
Proof.
  intros xml_parse fs filename sps als H.
  apply extract_sentences_alignments in H.
  destruct H as [content [root [Hfile [Hparse [Hroot Hnth]]]]].
  split; [eapply extract_root_nonneg; eauto |].
  exists content, root. split; [exact Hfile | split; [exact Hparse |]].
  intros i al Hi. destruct (Hnth i al Hi) as [child [sp [Hc Hbody]]].
  apply extract_body_built in Hbody.
  destruct Hbody as [t0 [t1 [t2 [t3 [s0 [s1 Hb]]]]]].
  destruct Hb as [_ [_ [H2 [H3 [_ [_ [_ [_ [A2 A3]]]]]]]]].
  exists child, t2, t3. auto.
Qed.

Lemma extract_sentences_positions_verbatim_witness :
  positions_at_least 0 [mkLabeledAlignment [(0, 3)] [(1, 2); (1, 1)]]
  /\ exists content root,
      (fun _ : string => Some "corpus") "corpus.xml" = Some content
      /\ (fun _ : string =>
            Ok (mkElement None
                  [mkElement None
                     [mkElement (Some "a") []; mkElement (Some "x y z") [];
                      mkElement (Some "0-3") [];
                      mkElement (Some "1-2 1-1") []]]))
           (replace_char "&" "&amp;" content) = Ok root
      /\ positions_verbatim root
           [mkLabeledAlignment [(0, 3)] [(1, 2); (1, 1)]].
Proof.
  apply (extract_sentences_positions_verbatim
           (fun _ => Ok (mkElement None
              [mkElement None
                 [mkElement (Some "a") []; mkElement (Some "x y z") [];
                  mkElement (Some "0-3") [];
                  mkElement (Some "1-2 1-1") []]]))
           (fun _ => Some "corpus") "corpus.xml"
           [mkSentencePair ["a"] ["x"; "y"; "z"]]
           [mkLabeledAlignment [(0, 3)] [(1, 2); (1, 1)]]).
  reflexivity.
Defined.

(** X22. In every alignment returned, [sure] has one pair per
    whitespace-separated token of sub-element 2 of the sentence element
    of the same index and [possible] one per token of its sub-element 3;
    a sub-element without text gives the empty list. *)
Theorem extract_sentences_alignment_sizes :
  forall (xml_parse : string -> result Element) (fs : FileSystem)
         (filename : string) sps als,
    snd (extract_sentences xml_parse fs filename) = Ok (sps, als) ->
    exists content root,
      fs filename = Some content
      /\ xml_parse (replace_char "&" "&amp;" content) = Ok root
      /\ forall i al,
          nth_error als i = Some al ->
          exists child t2 t3,
            nth_error (children root) i = Some child
            /\ nth_error (children child) 2 = Some t2
            /\ nth_error (children child) 3 = Some t3
            /\ List.length (sure al) = field_size t2
            /\ List.length (possible al) = field_size t3
            /\ (text t2 = None -> sure al = [])
            /\ (text t3 = None -> possible al = []).
Proof.
  intros xml_parse fs filename sps als H.
  apply extract_sentences_alignments in H.
  destruct H as [content [root [Hfile [Hparse [_ Hnth]]]]].
  exists content, root. split; [exact Hfile | split; [exact Hparse |]].
  intros i al Hi. destruct (Hnth i al Hi) as [child [sp [Hc Hbody]]].
  apply extract_body_fields in Hbody.
  destruct Hbody as [t0 [t1 [t2 [t3 [s0 [s1 Hb]]]]]].
  destruct Hb as [_ [_ [H2 [H3 [_ [_ [_ [A2 A3]]]]]]]].
  exists child, t2, t3.
  split; [exact Hc | split; [exact H2 | split; [exact H3 |]]].
  split; [now apply alignment_field_size |].
  split; [now apply alignment_field_size |].
  split; intro Hnone.
  - unfold alignment_field in A2. rewrite Hnone in A2. congruence.
  - unfold alignment_field in A3. rewrite Hnone in A3. congruence.
Qed.

Lemma extract_sentences_alignment_sizes_witness :
  exists content root,
    (fun _ : string => Some "corpus") "corpus.xml" = Some content
    /\ (fun _ : string =>
          Ok (mkElement None
                [mkElement None
                   [mkElement (Some "a b") []; mkElement (Some "x") [];
                    mkElement (Some "1-1 2-1") []; mkElement None []]]))
         (replace_char "&" "&amp;" content) = Ok root
    /\ forall i al,
        nth_error [mkLabeledAlignment [(1, 1); (2, 1)] []] i = Some al ->
        exists child t2 t3,
          nth_error (children root) i = Some child
          /\ nth_error (children child) 2 = Some t2
          /\ nth_error (children child) 3 = Some t3
          /\ List.length (sure al) = field_size t2
          /\ List.length (possible al) = field_size t3
          /\ (text t2 = None -> sure al = [])
          /\ (text t3 = None -> possible al = []).
Proof.
  apply (extract_sentences_alignment_sizes
           (fun _ => Ok (mkElement None
              [mkElement None
                 [mkElement (Some "a b") []; mkElement (Some "x") [];
                  mkElement (Some "1-1 2-1") []; mkElement None []]]))
           (fun _ => Some "corpus") "corpus.xml"
           [mkSentencePair ["a"; "b"] ["x"]]
           [mkLabeledAlignment [(1, 1); (2, 1)] []]).
  reflexivity.
Defined.

(** ** extract_sentences: ampersands in a document *)

Lemma escape_amp_app (s t : string) :
  escape_amp (String.append s t)
  = String.append (escape_amp s) (escape_amp t).
Proof.
  unfold escape_amp. induction s as [| c s IH]; [reflexivity |].
  cbn [String.append replace_char]. rewrite IH.
  destruct (Ascii.eqb c "&"); reflexivity.
Qed.

Lemma Element_nested_ind (P : Element -> Prop) :
  (forall t cs, Forall P cs -> P (mkElement t cs)) ->
  forall e, P e.
Proof.
  intro H. fix IH 1. intros [t cs]. apply H.
  induction cs as [| c cs IHcs]; constructor; [apply IH | exact IHcs].
Qed.

(** Escaping a written document escapes its texts and leaves the markup
    as it is. *)
Lemma escape_amp_written (e : Element) :
  escape_amp (xml_write e) = xml_write (map_text escape_amp e).
Proof.
  induction e as [t cs IH] using Element_nested_ind.
  cbn [xml_write map_text]. rewrite escape_amp_app.
  change (escape_amp "<e>") with "<e>". f_equal.
  rewrite escape_amp_app. f_equal.
  - now destruct t.
  - induction IH as [| c cs Hc _ IHcs]; [reflexivity |].
    cbn [fold_right map]. now rewrite escape_amp_app, Hc, IHcs.
Qed.

Lemma is_empty_escape_amp (s : string) :
  is_empty (escape_amp s) = is_empty s.
Proof.
  destruct s as [| c s]; [reflexivity |].
  unfold escape_amp. cbn [replace_char]. now destruct (Ascii.eqb c "&").
Qed.

Lemma element_with_escape_amp (s : string) :
  map_text escape_amp (element_with s) = element_with (escape_amp s).
Proof.
  unfold element_with. rewrite is_empty_escape_amp.
  now destruct (is_empty s).
Qed.

Lemma escape_amp_join (tokens : list string) :
  escape_amp (join_space tokens) = join_space (map escape_amp tokens).
Proof.
  induction tokens as [| t rest IH]; [reflexivity |].
  destruct rest as [| r rest]; [reflexivity |].
  change (join_space (t :: r :: rest))
    with (String.append t (String " " (join_space (r :: rest)))).
  change (join_space (map escape_amp (t :: r :: rest)))
    with (String.append (escape_amp t)
            (String " " (join_space (map escape_amp (r :: rest))))).
  rewrite escape_amp_app, <- IH. reflexivity.
Qed.

Lemma join_space_chars (tokens : list string) (c : ascii) :
  In c (list_ascii_of_string (join_space tokens)) ->
  c = " "%char \/ exists t, In t tokens /\ In c (list_ascii_of_string t).
Proof.
  induction tokens as [| t rest IH]; [intros [] |].
  destruct rest as [| r rest].
  - intro H. right. exists t. split; [now left | exact H].
  - change (join_space (t :: r :: rest))
      with (String.append t (String " " (join_space (r :: rest)))).
    rewrite list_ascii_of_append, in_app_iff. simpl.
    intros [H | [H | H]].
    + right. exists t. split; [now left | exact H].
    + now left.
    + destruct (IH H) as [Hs | [u [Hu Hc]]]; [now left |].
      right. exists u. split; [now right | exact Hc].
Qed.

Lemma alignment_text_no_amp (ps : list (nat * nat)) :
  escape_amp (alignment_text ps) = alignment_text ps.
Proof.
  apply replace_char_no_amp. intro Hin. unfold alignment_text in Hin.
  apply join_space_chars in Hin.
  destruct Hin as [H | [t [Ht Hc]]]; [discriminate |].
  apply in_map_iff in Ht. destruct Ht as [p [<- _]].
  unfold alignment_token in Hc.
  rewrite list_ascii_of_append, in_app_iff in Hc. simpl in Hc.
  assert (Hdigit : forall n, ~ In "&"%char (list_ascii_of_string (decimal n))).
  { intros n H. pose proof (decimal_digits (Nat.to_uint n)) as Hd.
    rewrite Forall_forall in Hd. apply Hd in H. discriminate. }
  destruct Hc as [H | [H | H]];
    [now apply Hdigit in H | discriminate | now apply Hdigit in H].
Qed.

Lemma entry_element_escape (e : Entry) :
  map_text escape_amp (entry_element e) = entry_element (escape_entry e).
Proof.
  unfold entry_element, escape_entry. cbn [map_text map option_map].
  cbn [entry_source entry_target entry_sure entry_possible].
  rewrite !element_with_escape_amp, !escape_amp_join,
    !alignment_text_no_amp. reflexivity.
Qed.

Lemma corpus_tree_escape (es : list Entry) :
  map_text escape_amp (corpus_tree es) = corpus_tree (map escape_entry es).
Proof.
  unfold corpus_tree. cbn [map_text option_map]. f_equal.
  rewrite !map_map. apply map_ext. intro e. apply entry_element_escape.
Qed.

Lemma escape_amp_token (t : string) : is_token t -> is_token (escape_amp t).
Proof.
  intros [Hne Hplain]. split.
  - apply is_empty_false. rewrite is_empty_escape_amp.
    now apply is_empty_false.
  - clear Hne. unfold escape_amp.
    induction t as [| c t IH]; [constructor |].
    simpl in Hplain. inversion Hplain as [| ? ? Hc Ht]; subst.
    cbn [replace_char]. destruct (Ascii.eqb c "&").
    + simpl. repeat (constructor; [reflexivity |]). now apply IH.
    + simpl. constructor; [exact Hc | now apply IH].
Qed.

Lemma escape_entry_ok (e : Entry) : entry_ok e -> entry_ok (escape_entry e).
Proof.
  intros [Hs [Ht [Hsrc [Htgt [Hsure Hposs]]]]]. unfold escape_entry.
  repeat split; cbn [entry_source entry_target entry_sure entry_possible];
    try assumption.
  - destruct (entry_source e); [congruence | discriminate].
  - destruct (entry_target e); [congruence | discriminate].
  - apply Forall_forall. intros t Hin. apply in_map_iff in Hin.
    destruct Hin as [u [<- Hu]]. rewrite Forall_forall in Hsrc.
    now apply escape_amp_token, Hsrc.
  - apply Forall_forall. intros t Hin. apply in_map_iff in Hin.
    destruct Hin as [u [<- Hu]]. rewrite Forall_forall in Htgt.
    now apply escape_amp_token, Htgt.
Qed.

Lemma escape_amp_changes (t : string) :
  In "&"%char (list_ascii_of_string t) -> escape_amp t <> t.
Proof.
  intros Hin Heq. pose proof (replace_char_length t) as Hlen.
  unfold escape_amp in Heq. rewrite Heq in Hlen.
  apply (count_occ_In ascii_dec) in Hin. lia.
Qed.

Lemma entry_alignment_escape (es : list Entry) :
  map entry_alignment (map escape_entry es) = map entry_alignment es.
Proof. rewrite map_map. apply map_ext. now intros [src tgt su po]. Qed.

(** C8. Before parsing, every ampersand of the file is replaced by
    [&amp;], character by character and whatever follows it. So a
    document whose tokens are written as they stand, bare ampersands
    included, reaches the parser as the well-formed document of the same
    tokens: once the parser reads that document, [extract_sentences]
    returns the tokens with their ampersands. A document that is
    already well-formed reaches the parser escaped once more: the
    function then returns every token in its escaped form, [AT&amp;T]
    for [AT&T], which differs from the token as soon as it has an
    ampersand. *)
Theorem extract_sentences_escapes_ampersands :
  forall (xml_parse : string -> result Element) (fs : FileSystem)
         (filename : string),
    (forall content,
        fs filename = Some content ->
        snd (extract_sentences xml_parse fs filename)
        = (root <- xml_parse (replace_char "&" "&amp;" content) ;;
           extract_root root)
        /\ fst (extract_sentences xml_parse fs filename) "new"
           = Some (replace_char "&" "&amp;" content)
        /\ replace_char "&" "&amp;" content
           = fold_right String.append EmptyString
                        (map escape_char (list_ascii_of_string content))
        /\ amp_escaped (replace_char "&" "&amp;" content) = true)
    /\ (forall es,
          Forall entry_ok es ->
          fs filename = Some (xml_write (corpus_tree es)) ->
          xml_parse (xml_serialize (corpus_tree es)) = Ok (corpus_tree es) ->
          snd (extract_sentences xml_parse fs filename)
          = Ok (map entry_pair es, map entry_alignment es))
    /\ (forall es,
          Forall entry_ok es ->
          fs filename = Some (xml_serialize (corpus_tree es)) ->
          xml_parse (xml_serialize (corpus_tree (map escape_entry es)))
          = Ok (corpus_tree (map escape_entry es)) ->
          snd (extract_sentences xml_parse fs filename)
          = Ok (map entry_pair (map escape_entry es),
                map entry_alignment es))
    /\ (forall t, In "&"%char (list_ascii_of_string t) -> escape_amp t <> t)
    /\ escape_amp "AT&T" = "AT&amp;T"
    /\ escape_amp "AT&amp;T" = "AT&amp;amp;T"
    /\ escape_amp "a &lt; b" = "a &amp;lt; b".
Proof.
  intros xml_parse fs filename.
  split; [| split; [| split; [| split; [| repeat split]]]].
  - intros content Hfile. split; [| split; [| split]].
    + now apply extract_sentences_read.
    + unfold extract_sentences, fs_read. rewrite Hfile. cbn [fst].
      unfold fs_write. now rewrite String.eqb_refl.
    + apply replace_char_pointwise.
    + apply replace_char_amp_escaped.
  - intros es Hok Hfile Hparse.
    rewrite (extract_sentences_read _ _ _ _ Hfile).
    change (replace_char "&" "&amp;" (xml_write (corpus_tree es)))
      with (escape_amp (xml_write (corpus_tree es))).
    rewrite escape_amp_written. fold (xml_serialize (corpus_tree es)).
    rewrite Hparse. cbn [bind]. unfold extract_root, corpus_tree.
    cbn [children]. now rewrite (extract_loop_written es Hok).
  - intros es Hok Hfile Hparse.
    rewrite (extract_sentences_read _ _ _ _ Hfile).
    change (replace_char "&" "&amp;" (xml_serialize (corpus_tree es)))
      with (escape_amp (xml_write (map_text escape_amp (corpus_tree es)))).
    rewrite escape_amp_written, corpus_tree_escape.
    fold (xml_serialize (corpus_tree (map escape_entry es))).
    rewrite Hparse. cbn [bind]. unfold extract_root, corpus_tree.
    cbn [children]. rewrite extract_loop_written.
    + simpl. now rewrite entry_alignment_escape.
    + apply Forall_forall. intros e He. apply in_map_iff in He.
      destruct He as [e0 [<- He0]]. rewrite Forall_forall in Hok.
      now apply escape_entry_ok, Hok.
  - apply escape_amp_changes.
Qed.

Lemma extract_sentences_escapes_ampersands_witness :
  snd (extract_sentences
         (fun _ => Ok (corpus_tree
                         [mkEntry ["AT&T"; "b"] ["x"] [(1%nat, 1%nat)] []]))
         (fun _ => Some (xml_write
                           (corpus_tree
                              [mkEntry ["AT&T"; "b"] ["x"]
                                       [(1%nat, 1%nat)] []])))
         "corpus.xml")
  = Ok (map entry_pair [mkEntry ["AT&T"; "b"] ["x"] [(1%nat, 1%nat)] []],
        map entry_alignment
            [mkEntry ["AT&T"; "b"] ["x"] [(1%nat, 1%nat)] []])
  /\ snd (extract_sentences
            (fun _ => Ok (corpus_tree
                            [mkEntry ["AT&amp;T"; "b"] ["x"]
                                     [(1%nat, 1%nat)] []]))
            (fun _ => Some (xml_serialize
                              (corpus_tree
                                 [mkEntry ["AT&T"; "b"] ["x"]
                                          [(1%nat, 1%nat)] []])))
            "corpus.xml")
     = Ok (map entry_pair
               (map escape_entry
                    [mkEntry ["AT&T"; "b"] ["x"] [(1%nat, 1%nat)] []]),
           map entry_alignment
               [mkEntry ["AT&T"; "b"] ["x"] [(1%nat, 1%nat)] []]).
Proof.
  split.
  - apply (proj1 (proj2 (extract_sentences_escapes_ampersands
             (fun _ => Ok (corpus_tree
                             [mkEntry ["AT&T"; "b"] ["x"]
                                      [(1%nat, 1%nat)] []]))
             (fun _ => Some (xml_write
                               (corpus_tree
                                  [mkEntry ["AT&T"; "b"] ["x"]
                                           [(1%nat, 1%nat)] []])))
             "corpus.xml"))
             [mkEntry ["AT&T"; "b"] ["x"] [(1%nat, 1%nat)] []]).
    + repeat constructor; simpl; try discriminate;
        unfold readable; vm_compute; discriminate.
    + reflexivity.
    + reflexivity.
  - apply (proj1 (proj2 (proj2 (extract_sentences_escapes_ampersands
             (fun _ => Ok (corpus_tree
                             [mkEntry ["AT&amp;T"; "b"] ["x"]
                                      [(1%nat, 1%nat)] []]))
             (fun _ => Some (xml_serialize
                               (corpus_tree
                                  [mkEntry ["AT&T"; "b"] ["x"]
                                           [(1%nat, 1%nat)] []])))
             "corpus.xml")))
             [mkEntry ["AT&T"; "b"] ["x"] [(1%nat, 1%nat)] []]).
    + repeat constructor; simpl; try discriminate;
        unfold readable; vm_compute; discriminate.
    + reflexivity.
    + reflexivity.
Defined.
